(** * GraphRAG: hybrid retrieval, score fusion and context assembly

    A shallow embedding of [src/graph/graph_rag.py] (class [GraphRAG]).

    - Python [float] is IEEE 754 binary64: scores are Rocq's primitive
      floats, so [0.5], [0.4], [0.1] and every product and sum below are
      the very values the interpreter computes.
    - Python [int] is [Z]; [str] is [string] (one character per code
      point, so [String.length] is Python's [len]).
    - The [dict] [all_results] keeps its keys in insertion order: it is an
      association list.
    - Calls of the object's collaborators (graph store, HTTP client) and of
      its own methods are recorded in a trace that the methods thread
      through; [print] statements are not modelled. *)

From Stdlib Require Import List ListDec ZArith Bool String Ascii Lia Permutation.
From Stdlib Require Import Sorting.Sorted DecimalString.
From Stdlib Require Import Floats.
Import ListNotations.

Local Open Scope Z_scope.

(** ** Python floats *)

Module PyFloat.

(** [float(n)] for an [int] [n]: the nearest binary64 value. *)
Definition of_int (n : Z) : float :=
  SF2Prim (binary_normalize prec emax n 0 false).

(** [a / b] on two [int]s: true division, [ZeroDivisionError] (here
    [None]) when [b] is zero.  For operands below [2^53] in magnitude the
    quotient of the converted operands is the correctly rounded
    quotient Python returns. *)
Definition int_truediv (a b : Z) : option float :=
  if b =? 0 then None else Some (of_int a / of_int b)%float.

End PyFloat.

(** ** The relational channel's distance-to-score transform

    [related_score = 1 / result['distance'] if result['distance'] > 0 else 0]
    (graph_rag.py, line 136). *)

(** The conditional expression with the division as Python evaluates it,
    exceptions included. *)
Definition related_score_checked (distance : Z) : option float :=
  if distance >? 0 then PyFloat.int_truediv 1 distance else Some 0%float.

(** The same expression where the division cannot fail. *)
Definition related_score_of (distance : Z) : float :=
  if distance >? 0 then (PyFloat.of_int 1 / PyFloat.of_int distance)%float
  else 0%float.

(** ** Python list operations *)

Module PyList.

(** [l[:k]]: the first [k] items, and for a negative [k] all but the last
    [-k] items. *)
Definition slice_to {A : Type} (l : list A) (k : Z) : list A :=
  if k <? 0 then firstn (Z.to_nat (Z.of_nat (List.length l) + k)) l
  else firstn (Z.to_nat k) l.

(** [sorted(l, key=...)] and [sorted(l, key=..., reverse=True)] are stable:
    items whose keys compare equal keep their order.  [precedes y x] says
    that [y] must come strictly before [x] ([key y < key x] ascending,
    [key x < key y] with [reverse=True]).  When [<] orders the keys
    totally (for floats: no NaN among them) a stable sort has one
    possible result, the one this insertion sort computes. *)
Section StableSort.

Context {A : Type}.
Variable precedes : A -> A -> bool.

Fixpoint insert (x : A) (l : list A) : list A :=
  match l with
  | [] => [x]
  | y :: l' => if precedes y x then y :: insert x l' else x :: y :: l'
  end.

Definition stable_sort (l : list A) : list A := fold_right insert [] l.

(** No item is followed by one that had to precede it. *)
Definition in_order (a b : A) : Prop := precedes b a = false.

End StableSort.

(** [list.sort] as CPython 3.11 runs it on a list shorter than 64 items
    (there the whole list is one run): the longest ascending or strictly
    descending run at the front is taken (a descending one is reversed) and
    the other items are inserted into it one by one, each at the slot a
    binary search finds.  [lt x y] is the comparison [x < y] of the keys,
    the only one the algorithm makes. *)
Section ListSort.

Context {A : Type}.
Variable lt : A -> A -> bool.

(** The run after [prev]: while the next item does ([descending]) or does
    not (ascending) compare less than the one before it. *)
Fixpoint take_run (descending : bool) (prev : A) (l : list A)
  : list A * list A :=
  match l with
  | [] => ([], [])
  | z :: tl =>
      if Bool.eqb (lt z prev) descending
      then let (run, rest) := take_run descending z tl in (z :: run, rest)
      else ([], l)
  end.

(** [count_run] with the reversal of a descending run: the run and what
    follows it. *)
Definition first_run (l : list A) : list A * list A :=
  match l with
  | [] => ([], [])
  | [x] => ([x], [])
  | x :: y :: tl =>
      let descending := lt y x in
      let (run, rest) := take_run descending y tl in
      (if descending then rev (x :: y :: run) else x :: y :: run, rest)
  end.

(** The loop [do p = l + ((r - l) >> 1); if pivot < *p: r = p else l = p+1
    while l < r] of [binarysort]. *)
Fixpoint bisect (fuel : nat) (sorted : list A) (pivot : A) (l r : nat) : nat :=
  match fuel with
  | O => l
  | S fuel' =>
      if (l <? r)%nat
      then let p := (l + (r - l) / 2)%nat in
           match nth_error sorted p with
           | Some x =>
               if lt pivot x then bisect fuel' sorted pivot l p
               else bisect fuel' sorted pivot (S p) r
           | None => l
           end
      else l
  end.

(** [binarysort]: each item of [rest] in turn is put at its slot. *)
Definition binarysort (sorted rest : list A) : list A :=
  fold_left
    (fun sorted pivot =>
       let l := bisect (S (List.length sorted)) sorted pivot 0
                  (List.length sorted) in
       firstn l sorted ++ pivot :: skipn l sorted)
    rest sorted.

(** [l.sort()] *)
Definition sort (l : list A) : list A :=
  let (run, rest) := first_run l in binarysort run rest.

(** [l.sort(reverse=True)]: the list is reversed, sorted, and reversed
    again. *)
Definition sort_reverse (l : list A) : list A := rev (sort (rev l)).

End ListSort.

End PyList.

(** ** Insertion-ordered dictionaries keyed by strings

    [d[k] = v] replaces the value of an existing key where it stands and
    appends a new key at the end; [values()] lists in key order. *)

Module PyDict.

Definition t (V : Type) : Type := list (string * V).

Section Ops.

Context {V : Type}.

Definition keys (d : t V) : list string := map fst d.
Definition values (d : t V) : list V := map snd d.

(** [k in d] *)
Definition mem (k : string) (d : t V) : bool :=
  existsb (fun kv => String.eqb k (fst kv)) d.

(** [d[k] = v] *)
Fixpoint set (k : string) (v : V) (d : t V) : t V :=
  match d with
  | [] => [(k, v)]
  | (k', v') :: d' =>
      if String.eqb k k' then (k, v) :: d' else (k', v') :: set k v d'
  end.

(** [d[k][field] = x], for a key that is present: [f] is the update of
    the one field. *)
Fixpoint update (k : string) (f : V -> V) (d : t V) : t V :=
  match d with
  | [] => []
  | (k', v') :: d' =>
      if String.eqb k k' then (k', f v') :: d' else (k', v') :: update k f d'
  end.

End Ops.

End PyDict.

(** ** Data model *)

#[local] Set Warnings "-inexact-float".

(** The columns every channel returns for an entry. *)
Record Entry : Type := mkEntry {
  id : string;
  title : string;
  category : string;
  content : string;
  knowledge_base_name : string
}.

(** A row of [semantic_search]: the entry and its ['similarity']. *)
Record SemanticRow : Type := mkSemanticRow {
  sem_entry :> Entry;
  similarity : float
}.

(** A row of [keyword_search]: the entry and its ['score']. *)
Record KeywordRow : Type := mkKeywordRow {
  kw_entry :> Entry;
  score : float
}.

(** A row of [get_related_entries]: the entry and its ['distance']. *)
Record RelatedRow : Type := mkRelatedRow {
  rel_entry :> Entry;
  distance : Z
}.

(** The row a hit was created from (the keys of [**result]). *)
Inductive ChannelRow : Type :=
| FromSemantic (r : SemanticRow)
| FromKeyword (r : KeywordRow)
| FromRelated (r : RelatedRow).

Definition row_entry (c : ChannelRow) : Entry :=
  match c with
  | FromSemantic r => r
  | FromKeyword r => r
  | FromRelated r => r
  end.

(** A value of [all_results] before line 147. *)
Record Hit : Type := mkHit {
  result : ChannelRow;
  semantic_score : float;
  keyword_score : float;
  related_score : float
}.

Definition hit_entry (h : Hit) : Entry := row_entry (result h).
Coercion hit_entry : Hit >-> Entry.

(** A value of [all_results] once ['combined_score'] is set: a ScoredHit. *)
Record ScoredHit : Type := mkScoredHit {
  hit :> Hit;
  combined_score : float
}.

(** ** [hybrid_search], lines 113-157: merging, scoring and ranking *)

(** Lines 115-121. *)
Definition merge_semantic (all_results : PyDict.t Hit) (r : SemanticRow)
  : PyDict.t Hit :=
  PyDict.set (id r)
    {| result := FromSemantic r;
       semantic_score := similarity r;
       keyword_score := 0;
       related_score := 0 |}
    all_results.

Definition set_keyword_score (x : float) (h : Hit) : Hit :=
  {| result := result h;
     semantic_score := semantic_score h;
     keyword_score := x;
     related_score := related_score h |}.

Definition set_related_score (x : float) (h : Hit) : Hit :=
  {| result := result h;
     semantic_score := semantic_score h;
     keyword_score := keyword_score h;
     related_score := x |}.

(** Lines 123-132. *)
Definition merge_keyword (all_results : PyDict.t Hit) (r : KeywordRow)
  : PyDict.t Hit :=
  if PyDict.mem (id r) all_results
  then PyDict.update (id r) (set_keyword_score (score r)) all_results
  else PyDict.set (id r)
         {| result := FromKeyword r;
            semantic_score := 0;
            keyword_score := score r;
            related_score := 0 |}
         all_results.

(** Lines 134-145. *)
Definition merge_related (all_results : PyDict.t Hit) (r : RelatedRow)
  : PyDict.t Hit :=
  let related_score := related_score_of (distance r) in
  if PyDict.mem (id r) all_results
  then PyDict.update (id r) (set_related_score related_score) all_results
  else PyDict.set (id r)
         {| result := FromRelated r;
            semantic_score := 0;
            keyword_score := 0;
            related_score := related_score |}
         all_results.

(** [all_results] after the three loops (lines 113-145). *)
Definition all_results (semantic_results : list SemanticRow)
    (keyword_results : list KeywordRow)
    (related_entries_results : list RelatedRow) : PyDict.t Hit :=
  fold_left merge_related related_entries_results
    (fold_left merge_keyword keyword_results
       (fold_left merge_semantic semantic_results [])).

(** Lines 147-151. *)
Definition with_combined_score (h : Hit) : ScoredHit :=
  {| hit := h;
     combined_score :=
       (semantic_score h * 0.5 +
        keyword_score h * 0.4 +
        related_score h * 0.1)%float |}.

(** [reverse=True] on the key ['combined_score']: [y] goes before [x] when
    [x]'s key is smaller. *)
Definition higher_combined (y x : ScoredHit) : bool :=
  (combined_score x <? combined_score y)%float.

(** The comparison [sorted] makes on the keys. *)
Definition lower_combined (x y : ScoredHit) : bool :=
  (combined_score x <? combined_score y)%float.

(** No key is NaN. *)
Definition all_numbers (hits : list ScoredHit) : bool :=
  forallb (fun h => negb (is_nan (combined_score h))) hits.

(** [sorted(hits, key=lambda x: x['combined_score'], reverse=True)]
    (lines 153-155).  When no key is NaN the keys are totally ordered and
    the result is the one a stable sort must give.  With a NaN among the
    keys the result is what the algorithm happens to do, here CPython
    3.11's for a list shorter than 64 hits ([all_results] has at most
    20 + 5 + 5 keys when the vector index yields no more than the 20 nodes
    it is asked for). *)
Definition sorted_by_combined_score (hits : list ScoredHit) : list ScoredHit :=
  if all_numbers hits then PyList.stable_sort higher_combined hits
  else PyList.sort_reverse lower_combined hits.

(** Lines 153-155. *)
Definition sorted_results (d : PyDict.t Hit) : list ScoredHit :=
  sorted_by_combined_score (map with_combined_score (PyDict.values d)).

(** Lines 113-157 as a function of the three channels' outputs. *)
Definition fuse_and_rank (semantic_results : list SemanticRow)
    (keyword_results : list KeywordRow)
    (related_entries_results : list RelatedRow) (top_k : Z) : list ScoredHit :=
  PyList.slice_to
    (sorted_results
       (all_results semantic_results keyword_results related_entries_results))
    top_k.

(** ** The graph store

    What the Cypher texts of [graph_rag.py] read: labelled nodes with their
    properties and typed, directed relationships.  [graph_builder.py]
    creates [KnowledgeBase], [Entry], [Fact] and [Concept] nodes and
    [CONTAINS], [RELATES_TO], [HAS_FACT] and [RELATED_TO] relationships;
    [SIMILAR_TO] is named by the traversal only. *)

Inductive Label : Type := L_KnowledgeBase | L_Entry | L_Fact | L_Concept.

Inductive RelType : Type :=
| CONTAINS | RELATES_TO | HAS_FACT | RELATED_TO | SIMILAR_TO.

(** A property a node does not carry reads as the empty string. *)
Record Node : Type := mkNode {
  node_label : Label;
  node_id : string;
  node_title : string;
  node_category : string;
  node_content : string;
  node_name : string
}.

(** Nodes are named by their position in [nodes]. *)
Record Relationship : Type := mkRelationship {
  start_node : nat;
  rel_type : RelType;
  end_node : nat
}.

Record Graph : Type := mkGraph {
  nodes : list Node;
  relationships : list Relationship
}.

Definition is_label (l : Label) (n : Node) : bool :=
  match l, node_label n with
  | L_KnowledgeBase, L_KnowledgeBase | L_Entry, L_Entry
  | L_Fact, L_Fact | L_Concept, L_Concept => true
  | _, _ => false
  end.

(** [MATCH (kb:KnowledgeBase)-[:CONTAINS]->(node)]: one [kb] per matching
    relationship. *)
Definition containing_kbs (g : Graph) (node : nat) : list Node :=
  flat_map
    (fun r =>
       match rel_type r, nth_error (nodes g) (start_node r) with
       | CONTAINS, Some kb =>
           if Nat.eqb (end_node r) node && is_label L_KnowledgeBase kb
           then [kb] else []
       | _, _ => []
       end)
    (relationships g).

(** The columns [node.id as id, ..., kb.name as knowledge_base_name]. *)
Definition entry_columns (node kb : Node) : Entry :=
  {| id := node_id node;
     title := node_title node;
     category := node_category node;
     content := node_content node;
     knowledge_base_name := node_name kb |}.

(** [YIELD node, score  MATCH (kb:KnowledgeBase)-[:CONTAINS]->(node)]: the
    rows of an index procedure joined with the containing knowledge
    bases. *)
Definition join_kb {R : Type} (g : Graph) (row : Entry -> float -> R)
    (yielded : list (nat * float)) : list R :=
  flat_map
    (fun ns =>
       match nth_error (nodes g) (fst ns) with
       | Some node =>
           map (fun kb => row (entry_columns node kb) (snd ns))
             (containing_kbs g (fst ns))
       | None => []
       end)
    yielded.

(** [-[:SIMILAR_TO|RELATES_TO|RELATED_TO*1..depth]->] *)
Definition traversed (t : RelType) : bool :=
  match t with
  | SIMILAR_TO | RELATES_TO | RELATED_TO => true
  | CONTAINS | HAS_FACT => false
  end.

Definition numbered {A : Type} (l : list A) : list (nat * A) :=
  combine (seq 0 (List.length l)) l.

(** The paths a variable-length pattern matches from [current]: at most
    [hops] more relationships, each of a traversed type, followed along its
    direction, and none used twice in one path ([used] holds the path so
    far).  Each path is listed by its end node and its length. *)
Fixpoint paths_from (g : Graph) (hops : nat) (current : nat) (used : list nat)
  : list (nat * nat) :=
  match hops with
  | O => []
  | S hops' =>
      flat_map
        (fun ir =>
           let '(i, r) := ir in
           if traversed (rel_type r) && Nat.eqb (start_node r) current
              && negb (existsb (Nat.eqb i) used)
           then (end_node r, S (List.length used))
                  :: paths_from g hops' (end_node r) (i :: used)
           else [])
        (numbered (relationships g))
  end.

(** [(e:Entry {id: $entry_id})] *)
Definition entries_with_id (g : Graph) (entry_id : string) : list nat :=
  flat_map
    (fun e =>
       if is_label L_Entry (snd e) && String.eqb (node_id (snd e)) entry_id
       then [fst e] else [])
    (numbered (nodes g)).

(** The rows of the [MATCH ... WHERE related:Entry MATCH ...] part of the
    traversal query, before [RETURN DISTINCT]. *)
Definition related_matches (g : Graph) (entry_id : string) (depth : nat)
  : list RelatedRow :=
  flat_map
    (fun e =>
       flat_map
         (fun p =>
            match nth_error (nodes g) (fst p) with
            | Some related =>
                if is_label L_Entry related
                then map (fun kb =>
                            {| rel_entry := entry_columns related kb;
                               distance := Z.of_nat (snd p) |})
                       (containing_kbs g (fst p))
                else []
            | None => []
            end)
         (paths_from g depth e []))
    (entries_with_id g entry_id).

Definition Entry_eq_dec (x y : Entry) : {x = y} + {x <> y}.
Proof. decide equality; apply string_dec. Defined.

Definition RelatedRow_eq_dec (x y : RelatedRow) : {x = y} + {x <> y}.
Proof. decide equality; [apply Z.eq_dec | apply Entry_eq_dec]. Defined.

(** [ORDER BY distance]: ascending. *)
Definition nearer (y x : RelatedRow) : bool := distance y <? distance x.

(** [RETURN DISTINCT ... ORDER BY distance LIMIT 5] over the matches.  The
    order of rows at one distance is the store's choice; here it is the
    order of the matches. *)
Definition related_rows (g : Graph) (entry_id : string) (depth : nat)
  : list RelatedRow :=
  firstn 5
    (PyList.stable_sort nearer
       (nodup RelatedRow_eq_dec (related_matches g entry_id depth))).

(** ** What the object talks to *)

(** The classes of [requests.exceptions] that [requests] raises; all are
    subclasses of [RequestException]. *)
Inductive RequestExceptionClass : Type :=
| ConnectionError | Timeout | HTTPError | JSONDecodeError | OtherRequestError.

(** Python exceptions, with the text [str(e)] gives. *)
Inductive Exception : Type :=
| RequestException (c : RequestExceptionClass) (msg : string)
| CypherSyntaxError (msg : string)
| AttributeError (msg : string)
| OtherException (msg : string).

Definition str_of_exception (e : Exception) : string :=
  match e with
  | RequestException _ msg | CypherSyntaxError msg | AttributeError msg
  | OtherException msg => msg
  end.

(** The searches a question is put to. *)
Inductive Search : Type :=
| VectorSearch (query : string) (top_k : Z)
| FulltextSearch (query : string) (top_k : Z).

(** The driver's view of the database: the graph and the two index
    procedures.  [vector_query_nodes q k] stands for
    [db.index.vector.queryNodes('entry_embeddings', k, encode(q))] and
    [fulltext_query_nodes q] for
    [db.index.fulltext.queryNodes('entry_content', q)]; each yields nodes
    (by position) with scores.  [search_error] is what a search raises
    instead of answering, if it does ([encode] or [session.run] failing:
    the store out of reach, the vector index ['entry_embeddings'] missing,
    a question the full-text parser rejects). *)
Record Neo4j : Type := mkNeo4j {
  graph : Graph;
  vector_query_nodes : string -> Z -> list (nat * float);
  fulltext_query_nodes : string -> list (nat * float);
  search_error : Search -> option Exception
}.

(** The [options] of the request. *)
Record Options : Type := mkOptions {
  temperature : float;
  num_predict : Z;
  options_top_k : Z;
  top_p : float
}.

(** The JSON body posted to [/api/generate]. *)
Record Payload : Type := mkPayload {
  payload_model : string;
  prompt : string;
  stream : bool;
  options : Options
}.

(** What a body decodes to: a JSON object (a [dict], here with its
    members) or a value of another type ([list], [NoneType], [int], ...,
    here with the name of the type). *)
Inductive JsonValue : Type :=
| JsonObject (members : list (string * string))
| JsonOther (type_name : string).

(** An HTTP response: its status, the text [raise_for_status] puts in its
    [HTTPError], and what [json()] decodes (or the decoder's error
    text). *)
Record Response : Type := mkResponse {
  status_code : Z;
  http_error_text : string;
  json_body : string + JsonValue
}.

(** What [requests.post] does: it returns a response or raises one of the
    [requests] exceptions. *)
Inductive PostResult : Type :=
| PostReturned (response : Response)
| PostRaised (c : RequestExceptionClass) (msg : string).

Inductive Outcome (A : Type) : Type :=
| Returned (a : A)
| Raised (e : Exception).
Arguments Returned {A} a.
Arguments Raised {A} e.

(** The [GraphRAG] object: its driver, its configuration, and the
    generation service as [requests.post(url, json=payload, timeout=t)]
    meets it. *)
Record GraphRAG : Type := mkGraphRAG {
  driver : Neo4j;
  ollama_url : string;
  model_name : string;
  requests_post : string -> Payload -> Z -> PostResult
}.

(** ** Calls and the trace *)

Inductive Call : Type :=
| Call_semantic_search (query : string) (top_k : Z)
| Call_keyword_search (query : string) (top_k : Z)
| Call_get_related_entries (entry_id : string) (depth : Z)
| Call_build_context (entries : list ScoredHit) (max_length : Z)
| Call_generate_answer_ollama (query context : string)
| Call_requests_post (url : string) (payload : Payload) (timeout : Z).

Definition Trace : Type := list Call.

(** A method run: from the trace so far to its outcome and the trace
    after. *)
Definition M (A : Type) : Type := Trace -> Outcome A * Trace.

Definition ret {A : Type} (a : A) : M A := fun t => (Returned a, t).

Definition raise {A : Type} (e : Exception) : M A := fun t => (Raised e, t).

Definition bind {A B : Type} (c : M A) (k : A -> M B) : M B :=
  fun t =>
    match c t with
    | (Returned a, t') => k a t'
    | (Raised e, t') => (Raised e, t')
    end.

Definition called (c : Call) : M unit := fun t => (Returned tt, t ++ [c]).

(** [try: body  except requests.exceptions.RequestException as e: handler] *)
Definition try_except_RequestException {A : Type} (body : M A)
    (handler : Exception -> M A) : M A :=
  fun t =>
    match body t with
    | (Raised (RequestException c msg), t') => handler (RequestException c msg) t'
    | other => other
    end.

(** The call [requests.post(...)] with its result. *)
Definition posted (r : PostResult) : M Response :=
  match r with
  | PostReturned response => ret response
  | PostRaised c msg => raise (RequestException c msg)
  end.

Declare Scope py_scope.
Delimit Scope py_scope with py.
Notation "x <- c ;; k" := (bind c (fun x => k))
  (at level 61, c at next level, right associativity) : py_scope.
Notation "c ;; k" := (bind c (fun _ => k))
  (at level 61, right associativity) : py_scope.
Local Open Scope py_scope.
Local Open Scope string_scope.

(** ** The retrieval channels *)

(** The rows of the vector query of [semantic_search]. *)
Definition semantic_rows (self : GraphRAG) (query : string) (top_k : Z)
  : list SemanticRow :=
  join_kb (graph (driver self)) mkSemanticRow
    (vector_query_nodes (driver self) query top_k).

(** [semantic_search] (lines 22-56): what [encode] or [session.run] raises
    is not caught. *)
Definition semantic_search (self : GraphRAG) (query : string) (top_k : Z)
  : M (list SemanticRow) :=
  called (Call_semantic_search query top_k) ;;
  match search_error (driver self) (VectorSearch query top_k) with
  | Some e => raise e
  | None => ret (semantic_rows self query top_k)
  end.

(** The rows of the full-text query of [keyword_search]; [LIMIT $top_k]
    keeps the first [top_k] rows ([hybrid_search] asks for 5; the store
    rejects a negative limit, which is not modelled). *)
Definition keyword_rows (self : GraphRAG) (query : string) (top_k : Z)
  : list KeywordRow :=
  firstn (Z.to_nat top_k)
    (join_kb (graph (driver self)) mkKeywordRow
       (fulltext_query_nodes (driver self) query)).

(** [keyword_search] (lines 58-75): what [session.run] raises is not
    caught. *)
Definition keyword_search (self : GraphRAG) (query : string) (top_k : Z)
  : M (list KeywordRow) :=
  called (Call_keyword_search query top_k) ;;
  match search_error (driver self) (FulltextSearch query top_k) with
  | Some e => raise e
  | None => ret (keyword_rows self query top_k)
  end.

(** [get_related_entries] (lines 77-94).  [str(depth)] is spliced into the
    pattern [*1..depth]; with a negative [depth] the text is no Cypher and
    the driver raises. *)
Definition get_related_entries (self : GraphRAG) (entry_id : string) (depth : Z)
  : M (list RelatedRow) :=
  called (Call_get_related_entries entry_id depth) ;;
  if (depth <? 0)%Z then raise (CypherSyntaxError "Invalid input")
  else ret (related_rows (graph (driver self)) entry_id (Z.to_nat depth)).

(** ** [hybrid_search] (lines 96-157) *)

Definition hybrid_search (self : GraphRAG) (query : string) (top_k : Z)
  : M (list ScoredHit) :=
  semantic_results <- semantic_search self query 20 ;;
  keyword_results <- keyword_search self query 5 ;;
  related_entries_results <-
    match semantic_results with
    | [] => ret []
    | top :: _ => get_related_entries self (id top) 1
    end ;;
  ret (fuse_and_rank semantic_results keyword_results related_entries_results
         top_k).

(** ** [build_context] (lines 159-176) *)

(** ["\n"] *)
Definition nl : string := String (ascii_of_nat 10) EmptyString.

(** [str(i)] for the index of [enumerate(entries, 1)]. *)
Definition str_of_nat (i : nat) : string :=
  NilEmpty.string_of_uint (Nat.to_uint i).

(** [len(s)] *)
Definition len (s : string) : Z := Z.of_nat (String.length s).

(** The f-string [part] of source [i]. *)
Definition source_part (i : nat) (entry : Entry) : string :=
  "[Source " ++ str_of_nat i ++ "] Knowledge Base: "
    ++ knowledge_base_name entry ++ nl
    ++ "Entry: " ++ title entry ++ " (Category: " ++ category entry ++ ")" ++ nl
    ++ "Content: " ++ content entry ++ nl ++ nl.

(** The loop: [context_parts] from source number [i] on, with
    [current_length] characters kept so far; [break] ends it. *)
Fixpoint context_parts (i : nat) (entries : list ScoredHit)
    (current_length max_length : Z) : list string :=
  match entries with
  | [] => []
  | entry :: rest =>
      let part := source_part i entry in
      if (current_length + len part >? max_length)%Z then []
      else part :: context_parts (S i) rest (current_length + len part)%Z max_length
  end.

(** ["".join(context_parts)] *)
Definition build_context (entries : list ScoredHit) (max_length : Z) : string :=
  String.concat "" (context_parts 1 entries 0 max_length).

(** The method call [self.build_context(entries, max_length)]. *)
Definition call_build_context (entries : list ScoredHit) (max_length : Z)
  : M string :=
  called (Call_build_context entries max_length) ;;
  ret (build_context entries max_length).

(** ** [generate_answer_ollama] (lines 178-226) *)

Definition system_prompt : string :=
"You are an AI assistant providing information about animals.
            Your role is to provide accurate, helpful information based on the provided context.

            Guidelines:
            1. Answer questions based ONLY on the provided context.
            2. Cite specific entries and categories when providing information.
            3. If the context doesn't contain enough information, clearly state that.
            4. Use clear, simple language.
            5. Be precise and avoid speculation.

            Format your responses clearly with:
            - Direct answer to the question
            - Relevant entry/category references
            - Plain language explanation
            - Any important caveats or limitations".

Definition user_prompt (query context : string) : string :=
  "Question: " ++ query ++ "

            Knowledge Base Context:
            " ++ context ++ "

            Please provide a comprehensive answer based on the above knowledge base context.".

Definition payload_of (self : GraphRAG) (query context : string) : Payload :=
  {| payload_model := model_name self;
     prompt := system_prompt ++ nl ++ nl ++ user_prompt query context;
     stream := false;
     options := {| temperature := 0.3;
                   num_predict := 1000;
                   options_top_k := 40;
                   top_p := 0.9 |} |}.

(** [response.raise_for_status()] *)
Definition raise_for_status (response : Response) : M unit :=
  if ((400 <=? status_code response) && (status_code response <? 600))%Z
  then raise (RequestException HTTPError (http_error_text response))
  else ret tt.

(** [response.json()] *)
Definition json (response : Response) : M JsonValue :=
  match json_body response with
  | inl msg => raise (RequestException JSONDecodeError msg)
  | inr value => ret value
  end.

(** [result.get(key, default)] *)
Fixpoint get (result : list (string * string)) (key default : string) : string :=
  match result with
  | [] => default
  | (k, v) :: rest => if String.eqb k key then v else get rest key default
  end.

(** [result.get(key, default)] on what the body decoded to: only a [dict]
    has the method. *)
Definition result_get (result : JsonValue) (key default : string) : M string :=
  match result with
  | JsonObject members => ret (get members key default)
  | JsonOther type_name =>
      raise (AttributeError
               ("'" ++ type_name ++ "' object has no attribute 'get'"))
  end.

(** [f"{self.ollama_url}/api/generate"] *)
Definition generate_url (self : GraphRAG) : string :=
  ollama_url self ++ "/api/generate".

Definition generate_answer_ollama (self : GraphRAG) (query context : string)
  : M string :=
  called (Call_generate_answer_ollama query context) ;;
  let payload := payload_of self query context in
  let url := generate_url self in
  try_except_RequestException
    (called (Call_requests_post url payload 120) ;;
     response <- posted (requests_post self url payload 120) ;;
     raise_for_status response ;;
     result <- json response ;;
     result_get result "response" "No response generated")
    (fun e => ret ("Error communicating with Ollama: " ++ str_of_exception e)).

(** ** [query] (lines 228-259) *)

Record Source : Type := mkSource {
  knowledge_base : string;
  entry_title : string;
  source_category : string;
  relevance_score : float
}.

(** The returned dictionary; ['context'] is absent on the short path. *)
Record QueryResult : Type := mkQueryResult {
  answer : string;
  sources : list Source;
  result_context : option string
}.

Definition not_found_answer : string :=
  "I couldn't find relevant information in the knowledge base for your question. Please rephrase or ask about specific animal topics.".

Definition source_of (entry : ScoredHit) : Source :=
  {| knowledge_base := knowledge_base_name entry;
     entry_title := title entry;
     source_category := category entry;
     relevance_score := combined_score entry |}.

Definition query (self : GraphRAG) (user_question : string) : M QueryResult :=
  relevant_entries <- hybrid_search self user_question 5 ;;
  match relevant_entries with
  | [] =>
      ret {| answer := not_found_answer; sources := []; result_context := None |}
  | _ :: _ =>
      context <- call_build_context relevant_entries 4000 ;;
      answer <- generate_answer_ollama self user_question context ;;
      ret {| answer := answer;
             sources := map source_of relevant_entries;
             result_context := Some context |}
  end.

(** ** Vocabulary of the properties *)

(** The keys of a dictionary filled by assigning [keys] in turn: each
    key stands where it occurred first. *)
Definition add_key (ks : list string) (k : string) : list string :=
  if existsb (String.eqb k) ks then ks else ks ++ [k].

Definition first_occurrences (keys : list string) : list string :=
  fold_left add_key keys [].

(** [x] is none of [ks]. *)
Definition absent_from (ks : list string) (x : string) : bool :=
  negb (existsb (String.eqb x) ks).

(** The value a channel gives entity [i]: that of its last row for [i]
    (later rows overwrite earlier ones), zero when it has no row for
    [i]. *)
Definition last_value {R : Type} (ident : R -> string) (val : R -> float)
    (rows : list R) (i : string) : float :=
  fold_left (fun acc r => if String.eqb (ident r) i then val r else acc)
    rows 0%float.

Definition semantic_of (rows : list SemanticRow) : string -> float :=
  last_value (fun r : SemanticRow => id r) similarity rows.

Definition keyword_of (rows : list KeywordRow) : string -> float :=
  last_value (fun r : KeywordRow => id r) score rows.

Definition related_of (rows : list RelatedRow) : string -> float :=
  last_value (fun r : RelatedRow => id r)
    (fun r => related_score_of (distance r)) rows.

(** The identifiers a list of rows or hits carries. *)
Definition ids {R : Type} (entry : R -> Entry) (rows : list R) : list string :=
  map (fun r => id (entry r)) rows.

(** The identifiers of a list of hits. *)
Definition hit_ids (hits : list ScoredHit) : list string :=
  map (fun h : ScoredHit => id h) hits.

(** The hits whose combined score equals ([==]) [c]. *)
Definition same_score (c : float) (h : ScoredHit) : bool :=
  (combined_score h =? c)%float.

(** The values of [all_results] in key order, scored (lines 113-151). *)
Definition scored_hits (s : list SemanticRow) (k : list KeywordRow)
    (r : list RelatedRow) : list ScoredHit :=
  map with_combined_score (PyDict.values (all_results s k r)).

(** What the three loops maintain: the keys stand in first-occurrence
    order of the identifiers seen so far, and each value carries its own
    key and, per channel, the channel's value for that key. *)
Definition scores_agree (s : list SemanticRow) (k : list KeywordRow)
    (r : list RelatedRow) (d : PyDict.t Hit) : Prop :=
  forall key h, In (key, h) d ->
    id h = key /\ semantic_score h = semantic_of s key /\
    keyword_score h = keyword_of k key /\ related_score h = related_of r key.

Definition merged (s : list SemanticRow) (k : list KeywordRow)
    (r : list RelatedRow) (d : PyDict.t Hit) : Prop :=
  PyDict.keys d =
    first_occurrences (ids sem_entry s ++ ids kw_entry k ++ ids rel_entry r)
  /\ scores_agree s k r d.

(** The relational channel of a run of [hybrid_search], given what the
    semantic channel returned. *)
Definition related_channel (self : GraphRAG) (semantic_results : list SemanticRow)
  : list RelatedRow :=
  match semantic_results with
  | [] => []
  | top :: _ => related_rows (graph (driver self)) (id top) 1
  end.

(** The arguments of the calls of [get_related_entries] in a trace. *)
Definition related_calls (t : Trace) : list (string * Z) :=
  flat_map
    (fun c =>
       match c with
       | Call_get_related_entries entry_id depth => [(entry_id, depth)]
       | _ => []
       end)
    t.

(** Calls of the Generation Service: the method and its HTTP request. *)
Definition is_generation_call (c : Call) : bool :=
  match c with
  | Call_generate_answer_ollama _ _ | Call_requests_post _ _ _ => true
  | _ => false
  end.

(** Calls of the Context Assembler. *)
Definition is_context_call (c : Call) : bool :=
  match c with
  | Call_build_context _ _ => true
  | _ => false
  end.

(** The failure of a request to the Generation Service, as the [try]
    block meets it: [requests.post] raises, the status is an error status,
    or the body does not decode. *)
Definition request_failure (r : PostResult) : option Exception :=
  match r with
  | PostRaised c msg => Some (RequestException c msg)
  | PostReturned response =>
      if ((400 <=? status_code response) && (status_code response <? 600))%Z
      then Some (RequestException HTTPError (http_error_text response))
      else match json_body response with
           | inl msg => Some (RequestException JSONDecodeError msg)
           | inr _ => None
           end
  end.

(** The rendered blocks of a ranked list, numbered from [i]. *)
Fixpoint source_parts (i : nat) (entries : list ScoredHit) : list string :=
  match entries with
  | [] => []
  | entry :: rest => source_part i entry :: source_parts (S i) rest
  end.

(** The summed length of some blocks. *)
Definition total_length (parts : list string) : Z :=
  fold_right (fun part acc => (len part + acc)%Z) 0%Z parts.

(** [route g a b n]: [n] traversed relationships, each followed along its
    direction, lead from node [a] to node [b]. *)
Inductive route (g : Graph) : nat -> nat -> nat -> Prop :=
| route_one r :
    In r (relationships g) -> traversed (rel_type r) = true ->
    route g (start_node r) (end_node r) 1
| route_cons r b n :
    In r (relationships g) -> traversed (rel_type r) = true ->
    route g (end_node r) b n ->
    route g (start_node r) b (S n).

(** [walk g a b p]: the relationships numbered [p], taken in this order,
    each of a traversed type and followed along its direction, lead from
    node [a] to node [b]. *)
Inductive walk (g : Graph) : nat -> nat -> list nat -> Prop :=
| walk_nil a : walk g a a []
| walk_cons i r b p :
    nth_error (relationships g) i = Some r -> traversed (rel_type r) = true ->
    walk g (end_node r) b p ->
    walk g (start_node r) b (i :: p).

(** [hops_to g entry_id entry m]: [m] hops lead from an [Entry] node whose
    [id] is [entry_id] to an [Entry] node that is shown, with a knowledge
    base containing it, as the columns [entry]. *)
Definition hops_to (g : Graph) (entry_id : string) (entry : Entry) (m : nat)
  : Prop :=
  exists seed related seed_node related_node kb,
    nth_error (nodes g) seed = Some seed_node
    /\ is_label L_Entry seed_node = true
    /\ node_id seed_node = entry_id
    /\ nth_error (nodes g) related = Some related_node
    /\ is_label L_Entry related_node = true
    /\ In kb (containing_kbs g related)
    /\ route g seed related m
    /\ entry = entry_columns related_node kb.

(** A row of the traversal from [entry_id] at most [depth] hops deep: the
    columns of an [Entry] node and of a knowledge base containing it, and
    the length of a route to it from an [Entry] node whose [id] is
    [entry_id]. *)
Definition reaches (g : Graph) (entry_id : string) (depth : nat)
    (row : RelatedRow) : Prop :=
  exists seed related n seed_node related_node kb,
    nth_error (nodes g) seed = Some seed_node
    /\ is_label L_Entry seed_node = true
    /\ node_id seed_node = entry_id
    /\ nth_error (nodes g) related = Some related_node
    /\ is_label L_Entry related_node = true
    /\ In kb (containing_kbs g related)
    /\ route g seed related n
    /\ (1 <= n <= depth)%nat
    /\ row = {| rel_entry := entry_columns related_node kb;
                distance := Z.of_nat n |}.

(** The constraint [FOR (e:Entry) REQUIRE e.id IS UNIQUE] of
    [graph_builder.py]: no two [Entry] nodes share an [id]. *)
Definition entry_ids_unique (g : Graph) : bool :=
  forallb
    (fun a =>
       forallb
         (fun b =>
            implb (is_label L_Entry (snd a) && is_label L_Entry (snd b)
                   && String.eqb (node_id (snd a)) (node_id (snd b)))
              (Nat.eqb (fst a) (fst b)))
         (numbered (nodes g)))
    (numbered (nodes g)).

(** Ingestion puts an entry in one knowledge base (its [id] starts with
    that base's name): the knowledge bases containing a node all have one
    name. *)
Definition one_knowledge_base (g : Graph) : bool :=
  forallb
    (fun node =>
       match containing_kbs g node with
       | [] => true
       | kb :: rest =>
           forallb (fun kb' => String.eqb (node_name kb') (node_name kb)) rest
       end)
    (seq 0 (List.length (nodes g))).

(** Consecutive rows never come nearer. *)
Definition ascending_distance (rows : list RelatedRow) : Prop :=
  forall i a b,
    nth_error rows i = Some a -> nth_error rows (S i) = Some b ->
    (distance a <= distance b)%Z.

(** Consecutive positions of a list of scores never increase. *)
Definition non_increasing (scores : list float) : Prop :=
  forall i a b,
    nth_error scores i = Some a -> nth_error scores (S i) = Some b ->
    (b <=? a)%float = true.

(** ** A small knowledge graph

    One knowledge base with three entries, as [graph_builder.py] ingests
    them: identifiers are [kb_name:Entry:title] and [related_animals]
    become [RELATED_TO] relationships. *)

Definition animals_graph : Graph :=
  {| nodes :=
       [ mkNode L_KnowledgeBase "" "" "" "" "Animals";
         mkNode L_Entry "Animals:Entry:Lion" "Lion" "Mammal"
           "Lions live in prides." "";
         mkNode L_Entry "Animals:Entry:Hyena" "Hyena" "Mammal"
           "Hyenas hunt in packs." "";
         mkNode L_Entry "Animals:Entry:Leopard" "Leopard" "Mammal"
           "Leopards climb trees." "" ];
     relationships :=
       [ mkRelationship 0 CONTAINS 1;
         mkRelationship 0 CONTAINS 2;
         mkRelationship 0 CONTAINS 3;
         mkRelationship 1 RELATED_TO 2;
         mkRelationship 1 RELATED_TO 3;
         mkRelationship 3 RELATED_TO 2 ] |}.

(** An object over that graph whose indexes both find the Lion entry and
    whose generation service times out. *)
Definition animals_rag : GraphRAG :=
  {| driver :=
       {| graph := animals_graph;
          vector_query_nodes := fun _ _ => [(1%nat, 0.82%float)];
          fulltext_query_nodes := fun _ => [(1%nat, 3.1%float)];
          search_error := fun _ => None |};
     ollama_url := "http://localhost:11434";
     model_name := "Llama3.1:8b";
     requests_post := fun _ _ _ =>
       PostRaised Timeout "Read timed out. (read timeout=120)" |}.

(** The same object when the indexes find nothing. *)
Definition silent_rag : GraphRAG :=
  {| driver :=
       {| graph := animals_graph;
          vector_query_nodes := fun _ _ => [];
          fulltext_query_nodes := fun _ => [];
          search_error := fun _ => None |};
     ollama_url := "http://localhost:11434";
     model_name := "Llama3.1:8b";
     requests_post := fun _ _ _ =>
       PostRaised Timeout "Read timed out. (read timeout=120)" |}.

Definition lions_question : string := "What do lions eat?".

(** * The rest of the repository *)

(** ** More vocabulary for [hybrid_search] *)

(** The first row of a channel for entity [i]. *)
Definition first_row {R : Type} (ident : R -> string) (rows : list R)
    (i : string) : option R :=
  find (fun r => String.eqb (ident r) i) rows.

(** The last row of a channel for entity [i]. *)
Definition last_row {R : Type} (ident : R -> string) (rows : list R)
    (i : string) : option R :=
  fold_left (fun acc r => if String.eqb (ident r) i then Some r else acc)
    rows None.

(** The row whose columns a hit for entity [i] shows. *)
Definition shown_row (s : list SemanticRow) (k : list KeywordRow)
    (r : list RelatedRow) (i : string) : option ChannelRow :=
  match last_row (fun x : SemanticRow => id x) s i with
  | Some row => Some (FromSemantic row)
  | None =>
      match first_row (fun x : KeywordRow => id x) k i with
      | Some row => Some (FromKeyword row)
      | None =>
          match first_row (fun x : RelatedRow => id x) r i with
          | Some row => Some (FromRelated row)
          | None => None
          end
      end
  end.

(** What the loops of [hybrid_search] maintain about the columns. *)
Definition columns_agree (s : list SemanticRow) (k : list KeywordRow)
    (r : list RelatedRow) (d : PyDict.t Hit) : Prop :=
  forall key h, In (key, h) d -> shown_row s k r key = Some (result h).

(** ** More vocabulary for [query] *)

(** The HTTP requests of a trace. *)
Definition is_post_call (c : Call) : bool :=
  match c with
  | Call_requests_post _ _ _ => true
  | _ => false
  end.

(** A text of [n] times ten characters. *)
Definition long_text (n : nat) : string :=
  String.concat "" (repeat "0123456789" n).

(** A store whose one entry has 4000 characters of content, a vector index
    that finds it, and a generation service that answers. *)
Definition verbose_rag : GraphRAG :=
  {| driver :=
       {| graph :=
            {| nodes :=
                 [ mkNode L_KnowledgeBase "" "" "" "" "Animals";
                   mkNode L_Entry "Animals:Entry:Whale" "Whale" "Mammal"
                     (long_text 400) "" ];
               relationships := [ mkRelationship 0 CONTAINS 1 ] |};
          vector_query_nodes := fun _ _ => [(1%nat, 0.9%float)];
          fulltext_query_nodes := fun _ => [];
          search_error := fun _ => None |};
     ollama_url := "http://localhost:11434";
     model_name := "Llama3.1:8b";
     requests_post := fun _ _ _ =>
       PostReturned
         {| status_code := 200;
            http_error_text := "";
            json_body :=
              inr (JsonObject [("model", "Llama3.1:8b"); ("done", "true")]) |} |}.

(** The example object with a generation service that answers 200 with a
    body that is JSON but no object: the list [[]]. *)
Definition listing_rag : GraphRAG :=
  {| driver := driver animals_rag;
     ollama_url := ollama_url animals_rag;
     model_name := model_name animals_rag;
     requests_post := fun _ _ _ =>
       PostReturned
         {| status_code := 200;
            http_error_text := "";
            json_body := inr (JsonOther "list") |} |}.

(** Seven semantic rows, one of them with a NaN similarity; [x] is listed
    before [e] and both have the combined score 3. *)
Definition nan_rows : list SemanticRow :=
  [ mkSemanticRow (mkEntry "x" "X" "" "" "Animals") 6%float;
    mkSemanticRow (mkEntry "one" "One" "" "" "Animals") 2%float;
    mkSemanticRow (mkEntry "e" "E" "" "" "Animals") 6%float;
    mkSemanticRow (mkEntry "n" "N" "" "" "Animals") nan;
    mkSemanticRow (mkEntry "a" "A" "" "" "Animals") 22%float;
    mkSemanticRow (mkEntry "b" "B" "" "" "Animals") 20%float;
    mkSemanticRow (mkEntry "c" "C" "" "" "Animals") 18%float ].

(** The example store with a full-text index that rejects the question. *)
Definition unparsed_rag : GraphRAG :=
  {| driver :=
       {| graph := animals_graph;
          vector_query_nodes := fun _ _ => [(1%nat, 0.82%float)];
          fulltext_query_nodes := fun _ => [];
          search_error :=
            fun search =>
              match search with
              | VectorSearch _ _ => None
              | FulltextSearch _ _ =>
                  Some (CypherSyntaxError
                          "Failed to invoke procedure `db.index.fulltext.queryNodes`")
              end |};
     ollama_url := ollama_url animals_rag;
     model_name := model_name animals_rag;
     requests_post := requests_post animals_rag |}.

(** ** [graph_builder.py]: [extract_concepts] (lines 45-57)

    Characters are code points below 256, where [str.lower] moves the
    upper-case letters (A-Z and the Latin-1 ones, U+00C0-U+00DE without the
    multiplication sign) 32 places up and leaves the rest. *)

Definition keywords : list string :=
  [ "mammal"; "bird"; "fish"; "reptile"; "amphibian"; "carnivore"; "herbivore";
    "omnivore";
    "savanna"; "ocean"; "forest"; "desert"; "arctic"; "habitat"; "diet";
    "species";
    "pride"; "flock"; "school"; "pack"; "herd"; "colony"; "group"; "social";
    "echolocation"; "migration"; "camouflage"; "predator"; "prey"; "extinct";
    "endangered" ].

Definition lower_char (c : ascii) : ascii :=
  let n := nat_of_ascii c in
  if ((65 <=? n) && (n <=? 90) || (192 <=? n) && (n <=? 214)
      || (216 <=? n) && (n <=? 222))%nat%bool
  then ascii_of_nat (n + 32) else c.

(** [text.lower()] *)
Fixpoint lower (text : string) : string :=
  match text with
  | EmptyString => EmptyString
  | String c rest => String (lower_char c) (lower rest)
  end.




(** * Properties *)

Local Close Scope string_scope.
Local Open Scope Z_scope.

(** ** Order facts about binary64 comparisons

    [sorted] compares keys with [<] only; these are the facts about [<?],
    [<=?] and [=?] on floats that the ranking relies on. *)

Module FloatOrder.

Lemma SFcompare_swap (x y : spec_float) :
  SFcompare y x = option_map CompOpp (SFcompare x y).
Proof.
  destruct x as [sx | sx | | sx mx ex], y as [sy | sy | | sy my ey]; simpl;
    try reflexivity;
    try (destruct sx; reflexivity);
    try (destruct sy; reflexivity);
    try (destruct sx, sy; reflexivity).
  rewrite (Z.compare_antisym ey ex).
  assert (M : Pos.compare_cont Eq my mx = CompOpp (Pos.compare_cont Eq mx my))
    by (symmetry; apply (Pos.compare_cont_antisym mx my Eq)).
  rewrite M.
  destruct sx, sy; simpl; try reflexivity;
    destruct (ey ?= ex)%Z; simpl; try reflexivity;
    destruct (Pos.compare_cont Eq mx my); reflexivity.
Qed.

Lemma SFcompare_Eq_same (x y c : spec_float) :
  SFcompare x c = Some Eq -> SFcompare y c = Some Eq ->
  SFcompare x y = Some Eq.
Proof.
  destruct x as [sx | sx | | sx mx ex], y as [sy | sy | | sy my ey],
    c as [sc | sc | | sc mc ec]; simpl; try discriminate; try reflexivity;
    try (destruct sx; discriminate); try (destruct sy; discriminate);
    try (destruct sx, sc; discriminate); try (destruct sy, sc; discriminate).
  - destruct sx, sy, sc; try discriminate; reflexivity.
  - intros Hx Hy.
    assert (Ex : sx = sc /\ ex = ec /\ mx = mc).
    { destruct sx, sc; try discriminate;
        destruct (ex ?= ec)%Z eqn:E; try discriminate;
        apply Z.compare_eq in E;
        destruct (Pos.compare_cont Eq mx mc) eqn:M; try discriminate;
        apply Pos.compare_eq in M; auto. }
    assert (Ey : sy = sc /\ ey = ec /\ my = mc).
    { destruct sy, sc; try discriminate;
        destruct (ey ?= ec)%Z eqn:E; try discriminate;
        apply Z.compare_eq in E;
        destruct (Pos.compare_cont Eq my mc) eqn:M; try discriminate;
        apply Pos.compare_eq in M; auto. }
    destruct Ex as (-> & -> & ->), Ey as (-> & -> & ->).
    rewrite Z.compare_refl.
    change (Pos.compare_cont Eq mc mc) with (Pos.compare mc mc).
    rewrite Pos.compare_refl. destruct sc; reflexivity.
Qed.

(** [<] is asymmetric, NaN included. *)
Lemma ltb_asym (x y : float) : (x <? y)%float = true -> (y <? x)%float = false.
Proof.
  rewrite !ltb_spec. unfold SFltb.
  rewrite (SFcompare_swap (Prim2SF x) (Prim2SF y)).
  destruct (SFcompare (Prim2SF x) (Prim2SF y)) as [[]|]; simpl; congruence.
Qed.

(** Two floats equal ([==]) to a third are not ordered by [<]. *)
Lemma eqb_not_ltb (x y c : float) :
  (x =? c)%float = true -> (y =? c)%float = true -> (x <? y)%float = false.
Proof.
  rewrite !eqb_spec, ltb_spec. unfold SFeqb, SFltb. intros Hx Hy.
  rewrite (SFcompare_Eq_same (Prim2SF x) (Prim2SF y) (Prim2SF c)).
  - reflexivity.
  - destruct (SFcompare (Prim2SF x) (Prim2SF c)) as [[]|]; congruence.
  - destruct (SFcompare (Prim2SF y) (Prim2SF c)) as [[]|]; congruence.
Qed.

(** On numbers (no NaN) [not (a < b)] is [b <= a]. *)
Lemma not_ltb_leb (a b : float) :
  is_nan a = false -> is_nan b = false ->
  (a <? b)%float = false -> (b <=? a)%float = true.
Proof.
  unfold is_nan. rewrite !eqb_spec, ltb_spec, leb_spec.
  unfold SFeqb, SFltb, SFleb.
  rewrite (SFcompare_swap (Prim2SF a) (Prim2SF b)).
  destruct (Prim2SF a) as [sa | sa | | sa ma ea] eqn:Ea; simpl; try discriminate;
    destruct (Prim2SF b) as [sb | sb | | sb mb eb] eqn:Eb; simpl; try discriminate;
    intros _ _;
    try (destruct sa; simpl; congruence);
    try (destruct sb; simpl; congruence);
    try (destruct sa, sb; simpl; congruence).
  destruct sa, sb; simpl; try congruence;
    destruct (ea ?= eb)%Z; simpl; try congruence;
    destruct (Pos.compare_cont Eq ma mb); simpl; congruence.
Qed.

End FloatOrder.

(** ** Facts about the list operations *)

Module PyListFacts.

Import PyList.

Section StableSort.

Context {A : Type}.
Variable precedes : A -> A -> bool.

Local Abbreviation insert := (PyList.insert precedes).
Local Abbreviation stable_sort := (PyList.stable_sort precedes).
Local Abbreviation in_order := (PyList.in_order precedes).

Lemma insert_perm x l : Permutation (x :: l) (insert x l).
Proof.
  induction l as [|y l IH]; simpl; [reflexivity|].
  destruct (precedes y x); [|reflexivity].
  rewrite perm_swap. now apply perm_skip.
Qed.

Lemma stable_sort_perm l : Permutation l (stable_sort l).
Proof.
  induction l as [|x l IH]; simpl; [constructor|].
  rewrite <- insert_perm. now apply perm_skip.
Qed.

Hypothesis precedes_asym :
  forall x y, precedes x y = true -> precedes y x = false.

Lemma insert_sorted x l : Sorted in_order l -> Sorted in_order (insert x l).
Proof.
  induction l as [|y l IH]; simpl; intros Hs.
  - repeat constructor.
  - destruct (precedes y x) eqn:E.
    + inversion Hs as [|? ? Hs' Hd]; subst.
      constructor; [now apply IH|].
      destruct l as [|z l]; simpl.
      * constructor. now apply precedes_asym.
      * destruct (precedes z x); constructor.
        -- now inversion Hd.
        -- now apply precedes_asym.
    + constructor; [assumption|]. constructor. exact E.
Qed.

Lemma stable_sort_sorted l : Sorted in_order (stable_sort l).
Proof.
  induction l as [|x l IH]; simpl; [constructor|now apply insert_sorted].
Qed.

(** Stability, for a class [same] of items that never precede one
    another: the sort leaves their subsequence as it was. *)
Lemma insert_filter (same : A -> bool) x l :
  (forall a b, same a = true -> same b = true -> precedes a b = false) ->
  filter same (insert x l) = filter same (x :: l).
Proof.
  intros Hsame. induction l as [|y l IH]; [reflexivity|].
  simpl insert. destruct (precedes y x) eqn:E; [|reflexivity].
  simpl in *. rewrite IH.
  destruct (same y) eqn:Ey, (same x) eqn:Ex; try reflexivity.
  rewrite (Hsame y x Ey Ex) in E. discriminate.
Qed.

Lemma stable_sort_filter (same : A -> bool) l :
  (forall a b, same a = true -> same b = true -> precedes a b = false) ->
  filter same (stable_sort l) = filter same l.
Proof.
  intros Hsame. induction l as [|x l IH]; [reflexivity|].
  simpl stable_sort. rewrite insert_filter by assumption.
  simpl. now rewrite IH.
Qed.

End StableSort.

(** [list.sort] rearranges: whatever the comparison answers, no item is
    lost, made up or repeated. *)
Section ListSort.

Context {A : Type}.
Variable lt : A -> A -> bool.

Lemma take_run_app descending prev (l : list A) :
  fst (take_run lt descending prev l) ++ snd (take_run lt descending prev l)
  = l.
Proof.
  revert prev. induction l as [|z tl IH]; intros prev; simpl; [reflexivity|].
  destruct (Bool.eqb (lt z prev) descending); [|reflexivity].
  specialize (IH z). destruct (take_run lt descending z tl) as [run rest].
  simpl in *. now rewrite IH.
Qed.

Lemma first_run_perm (l : list A) :
  Permutation l (fst (first_run lt l) ++ snd (first_run lt l)).
Proof.
  destruct l as [|x [|y tl]]; simpl; try reflexivity.
  pose proof (take_run_app (lt y x) y tl) as H.
  destruct (take_run lt (lt y x) y tl) as [run rest]. simpl in *.
  rewrite <- H at 1.
  destruct (lt y x).
  - change (x :: y :: run ++ rest) with ((x :: y :: run) ++ rest).
    apply Permutation_app_tail, Permutation_rev.
  - reflexivity.
Qed.

Lemma put_at_perm (l : nat) (pivot : A) (sorted : list A) :
  Permutation (sorted ++ [pivot]) (firstn l sorted ++ pivot :: skipn l sorted).
Proof.
  rewrite <- (firstn_skipn l sorted) at 1.
  rewrite <- Permutation_cons_append. apply Permutation_middle.
Qed.

Lemma binarysort_perm (rest sorted : list A) :
  Permutation (sorted ++ rest) (binarysort lt sorted rest).
Proof.
  unfold binarysort. revert sorted.
  induction rest as [|pivot rest IH]; intros sorted; cbn [fold_left].
  - now rewrite app_nil_r.
  - rewrite <- IH.
    change (sorted ++ pivot :: rest) with (sorted ++ [pivot] ++ rest).
    rewrite app_assoc. apply Permutation_app_tail, put_at_perm.
Qed.

Lemma sort_perm (l : list A) : Permutation l (sort lt l).
Proof.
  unfold sort. pose proof (first_run_perm l) as H.
  destruct (first_run lt l) as [run rest]. simpl in H.
  rewrite H at 1. apply binarysort_perm.
Qed.

Lemma sort_reverse_perm (l : list A) : Permutation l (sort_reverse lt l).
Proof.
  unfold sort_reverse.
  rewrite <- Permutation_rev, <- sort_perm. apply Permutation_rev.
Qed.

End ListSort.

Lemma slice_to_firstn {A : Type} (l : list A) (k : Z) :
  exists n, slice_to l k = firstn n l.
Proof. unfold slice_to. destruct (k <? 0); eauto. Qed.

Lemma slice_to_length {A : Type} (l : list A) (k : Z) :
  0 <= k -> Z.of_nat (List.length (slice_to l k)) <= k.
Proof.
  intros Hk. unfold slice_to.
  destruct (k <? 0) eqn:E; [apply Z.ltb_lt in E; lia|].
  rewrite length_firstn. lia.
Qed.

Lemma Sorted_firstn {A : Type} (R : A -> A -> Prop) n l :
  Sorted R l -> Sorted R (firstn n l).
Proof.
  revert l. induction n as [|n IH]; intros l Hs; simpl; [constructor|].
  destruct l as [|x l]; [constructor|].
  inversion Hs as [|? ? Hs' Hd]; subst. constructor; [now apply IH|].
  destruct l as [|y l]; [destruct n; constructor|].
  destruct n; simpl; constructor. now inversion Hd.
Qed.

(** [Sorted] read at consecutive positions. *)
Lemma Sorted_consecutive {A : Type} (R : A -> A -> Prop) l :
  Sorted R l ->
  forall i a b, nth_error l i = Some a -> nth_error l (S i) = Some b -> R a b.
Proof.
  induction 1 as [|x l Hs IH Hd]; intros i a b Ha Hb.
  - destruct i; discriminate.
  - destruct i as [|i]; simpl in *.
    + injection Ha as <-. destruct l as [|y l]; [discriminate|].
      injection Hb as <-. now inversion Hd.
    + eapply IH; eassumption.
Qed.

Lemma filter_firstn_prefix {A : Type} (p : A -> bool) n l :
  exists rest, filter p l = filter p (firstn n l) ++ rest.
Proof.
  exists (filter p (skipn n l)).
  rewrite <- filter_app, firstn_skipn. reflexivity.
Qed.

End PyListFacts.

(** ** Facts about dictionaries *)

Module PyDictFacts.

Import PyDict.

Section Ops.

Context {V : Type}.

Lemma mem_In k (d : t V) : mem k d = true <-> In k (keys d).
Proof.
  unfold mem, keys. rewrite existsb_exists, in_map_iff. split.
  - intros (kv & Hin & He). apply String.eqb_eq in He. eauto.
  - intros (kv & He & Hin). exists kv. split; [assumption|].
    apply String.eqb_eq. auto.
Qed.

Lemma mem_false k (d : t V) : mem k d = false <-> ~ In k (keys d).
Proof.
  rewrite <- mem_In. destruct (mem k d); split; congruence.
Qed.

Lemma keys_set k (v : V) d :
  keys (set k v d) = if mem k d then keys d else keys d ++ [k].
Proof.
  induction d as [|[k' v'] d IH]; [reflexivity|].
  simpl. destruct (String.eqb k k') eqn:E; simpl.
  - apply String.eqb_eq in E. now subst.
  - rewrite IH. unfold keys. now destruct (mem k d).
Qed.

Lemma keys_update k (f : V -> V) d : keys (update k f d) = keys d.
Proof.
  unfold keys. induction d as [|[k' v'] d IH]; [reflexivity|].
  simpl. destruct (String.eqb k k'); simpl; [reflexivity|].
  now rewrite IH.
Qed.

Lemma NoDup_keys_set k (v : V) d : NoDup (keys d) -> NoDup (keys (set k v d)).
Proof.
  intros Hd. rewrite keys_set. destruct (mem k d) eqn:E; [assumption|].
  apply mem_false in E.
  apply NoDup_app; [assumption | repeat constructor; intros [] |].
  intros x Hx [<-|[]]. contradiction.
Qed.

(** What a dictionary holds after [d[k] = v]. *)
Lemma In_set k (v : V) d k' v' :
  NoDup (keys d) -> In (k', v') (set k v d) ->
  (k' = k /\ v' = v) \/ (k' <> k /\ In (k', v') d).
Proof.
  induction d as [|[k0 v0] d IH]; simpl; intros Hd Hin.
  - destruct Hin as [[= <- <-]|[]]. auto.
  - inversion Hd as [|? ? Hnot Hd']; subst.
    destruct (String.eqb k k0) eqn:E.
    + apply String.eqb_eq in E. subst k0.
      destruct Hin as [[= <- <-]|Hin]; [auto|].
      right. split; [|auto]. intros ->. apply Hnot.
      apply in_map_iff. exists (k, v'). auto.
    + apply String.eqb_neq in E.
      destruct Hin as [[= <- <-]|Hin]; [auto|].
      destruct (IH Hd' Hin) as [?|[? ?]]; auto.
Qed.

(** What a dictionary holds after [d[k][field] = x]. *)
Lemma In_update k (f : V -> V) d k' v' :
  NoDup (keys d) -> In (k', v') (update k f d) ->
  (k' = k /\ exists v0, In (k, v0) d /\ v' = f v0) \/
  (k' <> k /\ In (k', v') d).
Proof.
  induction d as [|[k0 v0] d IH]; simpl; intros Hd Hin; [contradiction|].
  inversion Hd as [|? ? Hnot Hd']; subst.
  destruct (String.eqb k k0) eqn:E.
  - apply String.eqb_eq in E. subst k0.
    destruct Hin as [[= <- <-]|Hin]; [left; eauto|].
    right. split; [|auto]. intros ->. apply Hnot.
    apply in_map_iff. exists (k, v'). auto.
  - apply String.eqb_neq in E.
    destruct Hin as [[= <- <-]|Hin]; [auto|].
    destruct (IH Hd' Hin) as [(-> & v1 & ? & ->)|[? ?]]; [left|right]; eauto.
Qed.

End Ops.

End PyDictFacts.

(** ** Facts about the merge *)

Module FusionFacts.

Import PyDict PyDictFacts.

Lemma mem_existsb {V : Type} k (d : t V) :
  mem k d = existsb (String.eqb k) (keys d).
Proof.
  unfold mem, keys. induction d as [|[k' v] d IH]; [reflexivity|].
  simpl. now rewrite IH.
Qed.

Lemma keys_set_add_key {V : Type} k (v : V) d :
  keys (set k v d) = add_key (keys d) k.
Proof. rewrite keys_set, mem_existsb. reflexivity. Qed.

Lemma add_key_mem ks k :
  existsb (String.eqb k) ks = true -> add_key ks k = ks.
Proof. unfold add_key. now intros ->. Qed.

Lemma keys_merge_semantic d r : keys (merge_semantic d r) = add_key (keys d) (id r).
Proof. apply keys_set_add_key. Qed.

Lemma keys_merge_keyword d r : keys (merge_keyword d r) = add_key (keys d) (id r).
Proof.
  unfold merge_keyword. destruct (mem (id r) d) eqn:E.
  - rewrite keys_update, add_key_mem; [reflexivity|]. now rewrite <- mem_existsb.
  - apply keys_set_add_key.
Qed.

Lemma keys_merge_related d r : keys (merge_related d r) = add_key (keys d) (id r).
Proof.
  unfold merge_related. destruct (mem (id r) d) eqn:E.
  - rewrite keys_update, add_key_mem; [reflexivity|]. now rewrite <- mem_existsb.
  - apply keys_set_add_key.
Qed.

Lemma first_occurrences_snoc l k :
  first_occurrences (l ++ [k]) = add_key (first_occurrences l) k.
Proof. unfold first_occurrences. now rewrite fold_left_app. Qed.

Lemma existsb_eqb_In k ks : existsb (String.eqb k) ks = true <-> In k ks.
Proof.
  rewrite existsb_exists. split.
  - intros (x & Hin & E). apply String.eqb_eq in E. now subst.
  - intros Hin. exists k. split; [assumption|apply String.eqb_refl].
Qed.

Lemma In_add_key ks k x : In x (add_key ks k) <-> In x ks \/ x = k.
Proof.
  unfold add_key. destruct (existsb (String.eqb k) ks) eqn:E.
  - apply existsb_eqb_In in E. split; [auto|]. intros [? | ->]; assumption.
  - rewrite in_app_iff. simpl. intuition.
Qed.

Lemma NoDup_add_key ks k : NoDup ks -> NoDup (add_key ks k).
Proof.
  intros Hd. unfold add_key. destruct (existsb (String.eqb k) ks) eqn:E; [assumption|].
  assert (Hn : ~ In k ks) by (rewrite <- existsb_eqb_In; congruence).
  apply NoDup_app; [assumption | repeat constructor; intros [] |].
  intros x Hx [<-|[]]. contradiction.
Qed.

Lemma In_fold_add_key l ks x :
  In x (fold_left add_key l ks) <-> In x ks \/ In x l.
Proof.
  revert ks. induction l as [|k l IH]; intros ks; simpl; [intuition|].
  rewrite IH, In_add_key. intuition.
Qed.

Lemma NoDup_fold_add_key l ks : NoDup ks -> NoDup (fold_left add_key l ks).
Proof.
  revert ks. induction l as [|k l IH]; intros ks Hd; simpl; [assumption|].
  apply IH. now apply NoDup_add_key.
Qed.

Lemma In_first_occurrences l x : In x (first_occurrences l) <-> In x l.
Proof. unfold first_occurrences. rewrite In_fold_add_key. simpl. intuition. Qed.

Lemma NoDup_first_occurrences l : NoDup (first_occurrences l).
Proof. apply NoDup_fold_add_key. constructor. Qed.

Lemma last_value_snoc {R : Type} (ident : R -> string) val rows r i :
  last_value ident val (rows ++ [r]) i =
  if String.eqb (ident r) i then val r else last_value ident val rows i.
Proof. unfold last_value. now rewrite fold_left_app. Qed.

Lemma last_value_absent {R : Type} (ident : R -> string) val rows i :
  ~ In i (map ident rows) -> last_value ident val rows i = 0%float.
Proof.
  induction rows as [|r rows IH] using rev_ind; intros Hn; [reflexivity|].
  rewrite last_value_snoc. rewrite map_app, in_app_iff in Hn. simpl in Hn.
  destruct (String.eqb (ident r) i) eqn:E.
  - apply String.eqb_eq in E. tauto.
  - apply IH. tauto.
Qed.


Lemma merged_NoDup s k r d : merged s k r d -> NoDup (keys d).
Proof. intros [-> _]. apply NoDup_first_occurrences. Qed.

Lemma merged_absent s k r d i :
  merged s k r d -> mem i d = false ->
  ~ In i (ids sem_entry s) /\ ~ In i (ids kw_entry k) /\ ~ In i (ids rel_entry r).
Proof.
  intros [Hk _] Hm. apply mem_false in Hm. rewrite Hk in Hm.
  rewrite In_first_occurrences, !in_app_iff in Hm. tauto.
Qed.

Ltac other_key H :=
  match type of H with
  | ?a <> ?b =>
      let E := fresh "E" in
      destruct (String.eqb b a) eqn:E;
      [apply String.eqb_eq in E; congruence|]
  end.

Lemma merged_semantic s d x :
  merged s [] [] d -> merged (s ++ [x]) [] [] (merge_semantic d x).
Proof.
  intros Hm. pose proof (merged_NoDup _ _ _ _ Hm) as Hd.
  destruct Hm as [Hk Hs]. split.
  - rewrite keys_merge_semantic, Hk. unfold ids. simpl.
    rewrite !app_nil_r, map_app. simpl. now rewrite first_occurrences_snoc.
  - intros key h Hin. unfold merge_semantic in Hin.
    apply In_set in Hin; [|assumption].
    unfold semantic_of. rewrite last_value_snoc.
    destruct Hin as [[-> ->]|[Hne Hin]].
    + simpl. rewrite String.eqb_refl. auto.
    + other_key Hne. now apply Hs.
Qed.

Lemma merged_keyword s k d x :
  merged s k [] d -> merged s (k ++ [x]) [] (merge_keyword d x).
Proof.
  intros Hm. pose proof (merged_NoDup _ _ _ _ Hm) as Hd.
  pose proof (merged_absent _ _ _ _ (id x) Hm) as Hab.
  destruct Hm as [Hk Hs]. split.
  - rewrite keys_merge_keyword, Hk. unfold ids. simpl.
    rewrite !app_nil_r, map_app, app_assoc. simpl.
    now rewrite first_occurrences_snoc.
  - intros key h Hin. unfold keyword_of. rewrite last_value_snoc.
    unfold merge_keyword in Hin. destruct (mem (id x) d) eqn:E.
    + apply In_update in Hin; [|assumption].
      destruct Hin as [(-> & v0 & Hv0 & ->)|[Hne Hin]].
      * rewrite String.eqb_refl. destruct (Hs _ _ Hv0) as (? & ? & ? & ?). auto.
      * other_key Hne. now apply Hs.
    + apply In_set in Hin; [|assumption].
      destruct Hin as [[-> ->]|[Hne Hin]].
      * rewrite String.eqb_refl. simpl. destruct (Hab eq_refl) as (Hns & _).
        unfold semantic_of. rewrite last_value_absent by exact Hns. auto.
      * other_key Hne. now apply Hs.
Qed.

Lemma merged_related s k r d x :
  merged s k r d -> merged s k (r ++ [x]) (merge_related d x).
Proof.
  intros Hm. pose proof (merged_NoDup _ _ _ _ Hm) as Hd.
  pose proof (merged_absent _ _ _ _ (id x) Hm) as Hab.
  destruct Hm as [Hk Hs]. split.
  - rewrite keys_merge_related, Hk. unfold ids.
    rewrite map_app, !app_assoc. simpl. now rewrite first_occurrences_snoc.
  - intros key h Hin. unfold related_of. rewrite last_value_snoc.
    unfold merge_related in Hin. destruct (mem (id x) d) eqn:E.
    + apply In_update in Hin; [|assumption].
      destruct Hin as [(-> & v0 & Hv0 & ->)|[Hne Hin]].
      * rewrite String.eqb_refl. destruct (Hs _ _ Hv0) as (? & ? & ? & ?). auto.
      * other_key Hne. now apply Hs.
    + apply In_set in Hin; [|assumption].
      destruct Hin as [[-> ->]|[Hne Hin]].
      * rewrite String.eqb_refl. simpl. destruct (Hab eq_refl) as (Hns & Hnk & _).
        unfold semantic_of, keyword_of.
        rewrite (last_value_absent _ _ s) by exact Hns.
        rewrite (last_value_absent _ _ k) by exact Hnk. auto.
      * other_key Hne. now apply Hs.
Qed.

Lemma merged_fold_semantic l s d :
  merged s [] [] d -> merged (s ++ l) [] [] (fold_left merge_semantic l d).
Proof.
  revert s d. induction l as [|x l IH]; intros s d Hm; simpl.
  - now rewrite app_nil_r.
  - replace (s ++ x :: l) with ((s ++ [x]) ++ l) by now rewrite <- app_assoc.
    apply IH. now apply merged_semantic.
Qed.

Lemma merged_fold_keyword l s k d :
  merged s k [] d -> merged s (k ++ l) [] (fold_left merge_keyword l d).
Proof.
  revert k d. induction l as [|x l IH]; intros k d Hm; simpl.
  - now rewrite app_nil_r.
  - replace (k ++ x :: l) with ((k ++ [x]) ++ l) by now rewrite <- app_assoc.
    apply IH. now apply merged_keyword.
Qed.

Lemma merged_fold_related l s k r d :
  merged s k r d -> merged s k (r ++ l) (fold_left merge_related l d).
Proof.
  revert r d. induction l as [|x l IH]; intros r d Hm; simpl.
  - now rewrite app_nil_r.
  - replace (r ++ x :: l) with ((r ++ [x]) ++ l) by now rewrite <- app_assoc.
    apply IH. now apply merged_related.
Qed.

(** The dictionary after the three loops. *)
Lemma merged_all_results s k r : merged s k r (all_results s k r).
Proof.
  unfold all_results.
  apply (merged_fold_related r s k []).
  apply (merged_fold_keyword k s []).
  apply (merged_fold_semantic s []).
  split; [reflexivity|]. intros key h [].
Qed.


(** ** The order of the keys *)

Lemma add_key_app ks m x :
  existsb (String.eqb x) ks = false -> add_key (ks ++ m) x = ks ++ add_key m x.
Proof.
  intros Hx. unfold add_key. rewrite existsb_app, Hx. simpl.
  destruct (existsb (String.eqb x) m); [reflexivity|now rewrite app_assoc].
Qed.

Lemma fold_add_key_absent l ks :
  fold_left add_key l ks = ks ++ first_occurrences (filter (absent_from ks) l).
Proof.
  induction l as [|x l IH] using rev_ind.
  - simpl. now rewrite app_nil_r.
  - rewrite fold_left_app, filter_app. simpl. rewrite IH.
    destruct (absent_from ks x) eqn:E; unfold absent_from in E.
    + apply negb_true_iff in E.
      rewrite first_occurrences_snoc. now apply add_key_app.
    + apply negb_false_iff in E.
      rewrite app_nil_r. apply add_key_mem. rewrite existsb_app, E. reflexivity.
Qed.

Lemma absent_from_ext ks ks' :
  (forall x, In x ks <-> In x ks') ->
  forall x, absent_from ks x = absent_from ks' x.
Proof.
  intros H x. unfold absent_from. f_equal.
  destruct (existsb (String.eqb x) ks) eqn:E, (existsb (String.eqb x) ks') eqn:E';
    try reflexivity.
  - apply existsb_eqb_In, H, existsb_eqb_In in E. congruence.
  - apply existsb_eqb_In, H, existsb_eqb_In in E'. congruence.
Qed.

(** First occurrences over three lists in a row: those of the first, then
    what the second adds, then what the third adds. *)
Lemma first_occurrences_three a b c :
  first_occurrences (a ++ b ++ c) =
  first_occurrences a
    ++ first_occurrences (filter (absent_from a) b)
    ++ first_occurrences (filter (absent_from (a ++ b)) c).
Proof.
  unfold first_occurrences at 1. rewrite !fold_left_app.
  fold (first_occurrences a).
  rewrite (fold_add_key_absent b), (fold_add_key_absent c), <- app_assoc.
  f_equal.
  rewrite (filter_ext _ _ (absent_from_ext (first_occurrences a) a
                             (In_first_occurrences a))).
  f_equal. f_equal. apply filter_ext. apply absent_from_ext.
  intros x. rewrite !in_app_iff, !In_first_occurrences, filter_In.
  unfold absent_from. split.
  - intros [?|[? _]]; auto.
  - intros [?|Hb]; [auto|].
    destruct (existsb (String.eqb x) a) eqn:E.
    + left. now apply existsb_eqb_In.
    + right. auto.
Qed.

(** ** Facts about the ranking *)

Lemma In_firstn_In {A : Type} n (l : list A) x : In x (firstn n l) -> In x l.
Proof.
  intros Hin. rewrite <- (firstn_skipn n l). apply in_or_app. now left.
Qed.

Lemma NoDup_firstn {A : Type} n (l : list A) : NoDup l -> NoDup (firstn n l).
Proof.
  intros Hd. rewrite <- (firstn_skipn n l) in Hd.
  now apply NoDup_app_remove_r in Hd.
Qed.

Lemma higher_combined_asym x y :
  higher_combined x y = true -> higher_combined y x = false.
Proof. unfold higher_combined. apply FloatOrder.ltb_asym. Qed.

Lemma same_score_unordered c a b :
  same_score c a = true -> same_score c b = true -> higher_combined a b = false.
Proof.
  unfold same_score, higher_combined. intros Ha Hb.
  now apply (FloatOrder.eqb_not_ltb _ _ c).
Qed.

Lemma sorted_by_combined_score_perm hits :
  Permutation hits (sorted_by_combined_score hits).
Proof.
  unfold sorted_by_combined_score. destruct (all_numbers hits).
  - apply PyListFacts.stable_sort_perm.
  - apply PyListFacts.sort_reverse_perm.
Qed.

Lemma sorted_results_perm d :
  Permutation (map with_combined_score (values d)) (sorted_results d).
Proof. apply sorted_by_combined_score_perm. Qed.

(** The keys of the hits are numbers exactly when none is NaN. *)
Lemma all_numbers_spec hits :
  all_numbers hits = true <->
  (forall h, In h hits -> is_nan (combined_score h) = false).
Proof.
  unfold all_numbers. rewrite forallb_forall.
  split; intros H h Hin; specialize (H h Hin).
  - now apply negb_true_iff.
  - now apply negb_true_iff.
Qed.

Lemma fuse_and_rank_firstn s k r top_k :
  exists n,
    fuse_and_rank s k r top_k =
    firstn n (sorted_by_combined_score (scored_hits s k r)).
Proof. apply PyListFacts.slice_to_firstn. Qed.

(** Without NaN the ranking is the stable sort. *)
Lemma fuse_and_rank_numbers s k r top_k :
  (forall h, In h (scored_hits s k r) -> is_nan (combined_score h) = false) ->
  exists n,
    fuse_and_rank s k r top_k =
    firstn n (PyList.stable_sort higher_combined (scored_hits s k r)).
Proof.
  intros Hn. destruct (fuse_and_rank_firstn s k r top_k) as [n ->].
  exists n. unfold sorted_by_combined_score.
  now rewrite (proj2 (all_numbers_spec _) Hn).
Qed.

Lemma fuse_and_rank_In s k r top_k h :
  In h (fuse_and_rank s k r top_k) -> In h (scored_hits s k r).
Proof.
  destruct (fuse_and_rank_firstn s k r top_k) as [n ->]. intros Hin.
  apply In_firstn_In in Hin.
  eapply Permutation_in; [|exact Hin].
  symmetry. apply sorted_by_combined_score_perm.
Qed.

Lemma scored_hits_In s k r h :
  In h (scored_hits s k r) ->
  exists v : Hit, In (id v, v) (all_results s k r) /\ h = with_combined_score v.
Proof.
  unfold scored_hits, values. rewrite map_map, in_map_iff.
  intros ([key v] & <- & Hin). exists v. split; [|reflexivity].
  destruct (merged_all_results s k r) as [_ Hs].
  destruct (Hs _ _ Hin) as [-> _]. exact Hin.
Qed.

Lemma hit_ids_scored_hits s k r :
  hit_ids (scored_hits s k r) = keys (all_results s k r).
Proof.
  unfold hit_ids, scored_hits, values, keys. rewrite !map_map.
  apply map_ext_in. intros [key v] Hin. simpl.
  destruct (merged_all_results s k r) as [_ Hs].
  now destruct (Hs _ _ Hin) as [-> _].
Qed.

Lemma NoDup_hit_ids_scored_hits s k r : NoDup (hit_ids (scored_hits s k r)).
Proof.
  rewrite hit_ids_scored_hits.
  apply (merged_NoDup s k r). apply merged_all_results.
Qed.

End FusionFacts.

(** ** Runs of the methods *)

Module RunFacts.

Local Open Scope py_scope.

Lemma bind_returned {A B : Type} (c : M A) (k : A -> M B) t a t' :
  c t = (Returned a, t') -> bind c k t = k a t'.
Proof. unfold bind. now intros ->. Qed.

Lemma semantic_search_run self q top_k t :
  semantic_search self q top_k t =
  (match search_error (driver self) (VectorSearch q top_k) with
   | Some e => Raised e
   | None => Returned (semantic_rows self q top_k)
   end, t ++ [Call_semantic_search q top_k]).
Proof.
  unfold semantic_search, bind, called.
  now destruct (search_error _ _).
Qed.

Lemma keyword_search_run self q top_k t :
  keyword_search self q top_k t =
  (match search_error (driver self) (FulltextSearch q top_k) with
   | Some e => Raised e
   | None => Returned (keyword_rows self q top_k)
   end, t ++ [Call_keyword_search q top_k]).
Proof.
  unfold keyword_search, bind, called.
  now destruct (search_error _ _).
Qed.

Lemma get_related_entries_run self entry_id depth t :
  0 <= depth ->
  get_related_entries self entry_id depth t =
  (Returned (related_rows (graph (driver self)) entry_id (Z.to_nat depth)),
   t ++ [Call_get_related_entries entry_id depth]).
Proof.
  intros Hd. unfold get_related_entries, bind, called.
  destruct (depth <? 0) eqn:E; [apply Z.ltb_lt in E; lia|reflexivity].
Qed.

(** The calls a run of [hybrid_search] makes, in order, and where it
    ends. *)
Lemma hybrid_search_run self q top_k t :
  hybrid_search self q top_k t =
  match search_error (driver self) (VectorSearch q 20) with
  | Some e => (Raised e, t ++ [Call_semantic_search q 20])
  | None =>
      match search_error (driver self) (FulltextSearch q 5) with
      | Some e =>
          (Raised e, t ++ [Call_semantic_search q 20; Call_keyword_search q 5])
      | None =>
          (Returned
             (fuse_and_rank (semantic_rows self q 20) (keyword_rows self q 5)
                (related_channel self (semantic_rows self q 20)) top_k),
           t ++ [Call_semantic_search q 20; Call_keyword_search q 5]
             ++ map (fun a => Call_get_related_entries (fst a) (snd a))
                  (match semantic_rows self q 20 with
                   | [] => []
                   | top :: _ => [(id top, 1)]
                   end))
      end
  end.
Proof.
  unfold hybrid_search. unfold bind at 1. rewrite semantic_search_run.
  destruct (search_error (driver self) (VectorSearch q 20)); [reflexivity|].
  unfold bind at 1. rewrite keyword_search_run.
  destruct (search_error (driver self) (FulltextSearch q 5)).
  { now rewrite <- app_assoc. }
  unfold related_channel.
  destruct (semantic_rows self q 20) as [|top rest]; unfold bind, ret; simpl.
  - now rewrite <- app_assoc.
  - now rewrite <- !app_assoc.
Qed.

(** A run of [hybrid_search] that returns: both searches answered, and the
    result is the fusion of the three channels. *)
Lemma hybrid_search_returned self q top_k t hits t' :
  hybrid_search self q top_k t = (Returned hits, t') ->
  search_error (driver self) (VectorSearch q 20) = None /\
  search_error (driver self) (FulltextSearch q 5) = None /\
  hits = fuse_and_rank (semantic_rows self q 20) (keyword_rows self q 5)
           (related_channel self (semantic_rows self q 20)) top_k /\
  t' = t ++ [Call_semantic_search q 20; Call_keyword_search q 5]
         ++ map (fun a => Call_get_related_entries (fst a) (snd a))
              (match semantic_rows self q 20 with
               | [] => []
               | top :: _ => [(id top, 1)]
               end).
Proof.
  rewrite hybrid_search_run.
  destruct (search_error (driver self) (VectorSearch q 20)); [discriminate|].
  destruct (search_error (driver self) (FulltextSearch q 5)); [discriminate|].
  intros [= <- <-]. repeat split.
Qed.

(** When both searches answer, [hybrid_search] returns. *)
Lemma hybrid_search_answered self q top_k t :
  search_error (driver self) (VectorSearch q 20) = None ->
  search_error (driver self) (FulltextSearch q 5) = None ->
  hybrid_search self q top_k t =
  (Returned
     (fuse_and_rank (semantic_rows self q 20) (keyword_rows self q 5)
        (related_channel self (semantic_rows self q 20)) top_k),
   t ++ [Call_semantic_search q 20; Call_keyword_search q 5]
     ++ map (fun a => Call_get_related_entries (fst a) (snd a))
          (match semantic_rows self q 20 with
           | [] => []
           | top :: _ => [(id top, 1)]
           end)).
Proof. intros Hs Hk. now rewrite hybrid_search_run, Hs, Hk. Qed.

Lemma related_calls_app t1 t2 :
  related_calls (t1 ++ t2) = related_calls t1 ++ related_calls t2.
Proof. unfold related_calls. apply flat_map_app. Qed.

Lemma related_calls_map l :
  related_calls (map (fun a => Call_get_related_entries (fst a) (snd a)) l) = l.
Proof.
  induction l as [|[i d] l IH]; [reflexivity|]. simpl. now rewrite IH.
Qed.

(** The outcome of [generate_answer_ollama] on each result of the
    request. *)
Lemma generate_answer_ollama_run self q ctx t :
  generate_answer_ollama self q ctx t =
  (match requests_post self (generate_url self) (payload_of self q ctx) 120 with
   | PostRaised c msg =>
       Returned ("Error communicating with Ollama: " ++ msg)%string
   | PostReturned response =>
       if ((400 <=? status_code response) && (status_code response <? 600))%Z
       then Returned ("Error communicating with Ollama: "
                        ++ http_error_text response)%string
       else match json_body response with
            | inl msg =>
                Returned ("Error communicating with Ollama: " ++ msg)%string
            | inr (JsonObject members) =>
                Returned (get members "response" "No response generated")
            | inr (JsonOther type_name) =>
                Raised (AttributeError
                          ("'" ++ type_name
                               ++ "' object has no attribute 'get'")%string)
            end
   end,
   t ++ [Call_generate_answer_ollama q ctx;
         Call_requests_post (generate_url self) (payload_of self q ctx) 120]).
Proof.
  unfold generate_answer_ollama, generate_url, bind, called,
    try_except_RequestException, posted, raise_for_status, json, result_get,
    ret, raise.
  rewrite <- app_assoc. simpl.
  destruct (requests_post self _ _ 120) as [response|c msg]; [|reflexivity].
  destruct ((400 <=? status_code response) && (status_code response <? 600))%bool;
    [reflexivity|].
  destruct (json_body response) as [msg|[members|type_name]]; reflexivity.
Qed.

(** [query] on an empty and on a non-empty fused list. *)
Lemma query_run self q t hits t1 :
  hybrid_search self q 5 t = (Returned hits, t1) ->
  query self q t =
  match hits with
  | [] =>
      (Returned {| answer := not_found_answer; sources := [];
                   result_context := None |}, t1)
  | _ :: _ =>
      let context := build_context hits 4000 in
      match generate_answer_ollama self q context
              (t1 ++ [Call_build_context hits 4000]) with
      | (Returned a, t2) =>
          (Returned {| answer := a; sources := map source_of hits;
                       result_context := Some context |}, t2)
      | (Raised e, t2) => (Raised e, t2)
      end
  end.
Proof.
  intros Hrun. unfold query. rewrite (bind_returned _ _ _ _ _ Hrun).
  destruct hits as [|h hits]; [reflexivity|].
  unfold call_build_context, bind, called, ret. simpl.
  destruct (generate_answer_ollama self q _ _) as [[a|e] t2]; reflexivity.
Qed.

End RunFacts.

(** * Properties of the specification *)

Import FusionFacts RunFacts.

(** What every scored value of [all_results] carries. *)
Lemma scored_hit_scores s k r h :
  In h (scored_hits s k r) ->
  combined_score h =
    (semantic_score h * 0.5 + keyword_score h * 0.4 + related_score h * 0.1)%float
  /\ semantic_score h = semantic_of s (id h)
  /\ keyword_score h = keyword_of k (id h)
  /\ related_score h = related_of r (id h).
Proof.
  intros Hin. apply scored_hits_In in Hin. destruct Hin as (v & Hin & ->).
  destruct (merged_all_results s k r) as [_ Hs].
  destruct (Hs _ _ Hin) as (_ & Hsem & Hkw & Hrel).
  simpl. auto.
Qed.

(** C1: every hit [hybrid_search] returns has
    [combined_score = semantic_score * 0.5 + keyword_score * 0.4 +
    related_score * 0.1], computed in binary64 as the source writes it; each
    of its three channel scores is the value that channel gave the entity,
    and is zero for a channel that returned no row for it. *)
Theorem hybrid_search_combined_score :
  forall self q top_k t hits t',
    hybrid_search self q top_k t = (Returned hits, t') ->
    forall h, In h hits ->
      let s := semantic_rows self q 20 in
      let k := keyword_rows self q 5 in
      let r := related_channel self s in
      combined_score h =
        (semantic_score h * 0.5 + keyword_score h * 0.4
         + related_score h * 0.1)%float
      /\ semantic_score h = semantic_of s (id h)
      /\ keyword_score h = keyword_of k (id h)
      /\ related_score h = related_of r (id h)
      /\ (~ In (id h) (ids sem_entry s) -> semantic_score h = 0%float)
      /\ (~ In (id h) (ids kw_entry k) -> keyword_score h = 0%float)
      /\ (~ In (id h) (ids rel_entry r) -> related_score h = 0%float).
Proof.
  intros self q top_k t hits t' Hrun h Hin s k r.
  apply hybrid_search_returned in Hrun. destruct Hrun as (_ & _ & -> & _).
  apply fuse_and_rank_In in Hin.
  destruct (scored_hit_scores _ _ _ _ Hin) as (Hc & Hs & Hk & Hr).
  repeat split; try assumption.
  - intros Hn. rewrite Hs. now apply last_value_absent.
  - intros Hn. rewrite Hk. now apply last_value_absent.
  - intros Hn. rewrite Hr. now apply last_value_absent.
Qed.

(** The Hyena hit of the example: found by the relational channel only. *)
Lemma hybrid_search_combined_score_witness :
  exists h : ScoredHit,
    nth_error
      (fuse_and_rank (semantic_rows animals_rag lions_question 20)
         (keyword_rows animals_rag lions_question 5)
         (related_channel animals_rag (semantic_rows animals_rag lions_question 20))
         10) 1 = Some h
    /\ combined_score h =
         (semantic_score h * 0.5 + keyword_score h * 0.4
          + related_score h * 0.1)%float
    /\ semantic_score h = 0%float /\ keyword_score h = 0%float
    /\ related_score h = 1%float.
Proof.
  eexists. split; [reflexivity|].
  destruct (hybrid_search_combined_score animals_rag lions_question 10 [] _ _
              eq_refl _ (or_intror (or_introl eq_refl)))
    as (Hc & _ & _ & Hr & Hs & Hk & _).
  split; [exact Hc|]. split; [|split].
  - apply Hs. vm_compute. intros [H|[]]. discriminate H.
  - apply Hk. vm_compute. intros [H|[]]. discriminate H.
  - rewrite Hr. reflexivity.
Defined.

(** On numbers the ranked list never steps up. *)
Lemma fuse_and_rank_sorted s k r top_k :
  (forall h, In h (scored_hits s k r) -> is_nan (combined_score h) = false) ->
  Sorted (PyList.in_order higher_combined) (fuse_and_rank s k r top_k).
Proof.
  intros Hnum. destruct (fuse_and_rank_numbers s k r top_k Hnum) as [n ->].
  apply PyListFacts.Sorted_firstn.
  apply PyListFacts.stable_sort_sorted. exact higher_combined_asym.
Qed.

(** C2, as the code has it: whatever the three channels return
    ([hybrid_search] returns [fuse_and_rank] of their rows, see
    [RunFacts.hybrid_search_returned]), for a non-negative [top_k] the list
    returned has at most [top_k] hits; and for every [top_k], when no
    combined score is NaN, the combined scores never increase from one
    position to the next.  (A negative [top_k] makes
    [sorted_results[:top_k]] drop the last [-top_k] hits, and NaN compares
    false with everything.) *)
Theorem fuse_and_rank_length_sorted :
  forall s k r top_k,
    (0 <= top_k ->
     Z.of_nat (List.length (fuse_and_rank s k r top_k)) <= top_k)
    /\ ((forall h, In h (scored_hits s k r) ->
                   is_nan (combined_score h) = false) ->
        non_increasing (map combined_score (fuse_and_rank s k r top_k))).
Proof.
  intros s k r top_k. split.
  - apply PyListFacts.slice_to_length.
  - intros Hnum i a b Ha Hb.
    rewrite nth_error_map in Ha, Hb.
    destruct (nth_error (fuse_and_rank s k r top_k) i) as [ha|] eqn:Ea;
      [|discriminate].
    destruct (nth_error (fuse_and_rank s k r top_k) (S i)) as [hb|] eqn:Eb;
      [|discriminate].
    injection Ha as <-. injection Hb as <-.
    pose proof (PyListFacts.Sorted_consecutive _ _
                  (fuse_and_rank_sorted s k r top_k Hnum) _ _ _ Ea Eb) as Hord.
    apply nth_error_In, fuse_and_rank_In in Ea, Eb.
    apply FloatOrder.not_ltb_leb; auto.
Qed.

(** The example asked for its best two hits. *)
Lemma fuse_and_rank_length_sorted_witness :
  let s := semantic_rows animals_rag lions_question 20 in
  let k := keyword_rows animals_rag lions_question 5 in
  let r := related_channel animals_rag s in
  Z.of_nat (List.length (fuse_and_rank s k r 2)) <= 2
  /\ non_increasing (map combined_score (fuse_and_rank s k r 2)).
Proof.
  intros s k r.
  destruct (fuse_and_rank_length_sorted s k r 2) as [Hlen Hsorted].
  split.
  - apply Hlen. lia.
  - apply Hsorted. intros h Hin. vm_compute in Hin.
    destruct Hin as [<-|[<-|[<-|[]]]]; reflexivity.
Defined.

(** C2 as stated fails: asked for [top_k = -1] the example returns two
    hits, which is more than [-1]; and a NaN similarity leaves two hits
    whose scores are not in non-increasing order. *)
Lemma fuse_and_rank_length_sorted_counterexample :
  (exists hits t',
      hybrid_search animals_rag lions_question (-1) [] = (Returned hits, t')
      /\ ~ Z.of_nat (List.length hits) <= -1)
  /\ ~ non_increasing
         (map combined_score
            (fuse_and_rank
               [ mkSemanticRow (mkEntry "a" "A" "" "" "Animals") nan;
                 mkSemanticRow (mkEntry "b" "B" "" "" "Animals") 1%float ]
               [] [] 2)).
Proof.
  split.
  - eexists. eexists. split; [reflexivity|]. simpl. lia.
  - intros H. specialize (H 0%nat _ _ eq_refl eq_refl). discriminate H.
Qed.

(** The keys of [all_results] are distinct, and so are the identifiers of
    any ranked list cut from it. *)
Lemma NoDup_hit_ids_fuse_and_rank s k r top_k :
  NoDup (hit_ids (fuse_and_rank s k r top_k)).
Proof.
  destruct (fuse_and_rank_firstn s k r top_k) as [n ->].
  unfold hit_ids. rewrite <- firstn_map. apply NoDup_firstn.
  eapply Permutation_NoDup; [|apply (NoDup_hit_ids_scored_hits s k r)].
  apply Permutation_map. apply sorted_by_combined_score_perm.
Qed.

(** Where no two items share a key, items of one key are one item. *)
Lemma NoDup_map_same {A B : Type} (f : A -> B) (l : list A) a b :
  NoDup (map f l) -> In a l -> In b l -> f a = f b -> a = b.
Proof.
  induction l as [|x l IH]; intros Hd Ha Hb Hf; [destruct Ha|].
  simpl in Hd. inversion Hd as [|? ? Hnot Hd']; subst.
  destruct Ha as [->|Ha], Hb as [->|Hb].
  - reflexivity.
  - exfalso. apply Hnot. rewrite Hf. now apply in_map.
  - exfalso. apply Hnot. rewrite <- Hf. now apply in_map.
  - now apply IH.
Qed.

(** C4: in the list a run of [hybrid_search] returns no entity identifier
    occurs twice, so the hits of one identifier are one hit; and that one
    hit holds the scores of all the channels that returned the entity: its
    semantic, keyword and related score are the values the semantic, the
    keyword and the relational channel gave the identifier (zero where the
    channel has no row for it).  Rows of several channels, or several rows
    of one channel, for one entity end up merged in a single record. *)
Theorem hybrid_search_unique_ids :
  forall self q top_k t hits t',
    hybrid_search self q top_k t = (Returned hits, t') ->
    let s := semantic_rows self q 20 in
    let k := keyword_rows self q 5 in
    let r := related_channel self s in
    NoDup (hit_ids hits)
    /\ (forall h1 h2 : ScoredHit,
          In h1 hits -> In h2 hits -> id h1 = id h2 -> h1 = h2)
    /\ (forall h : ScoredHit, In h hits ->
          semantic_score h = semantic_of s (id h)
          /\ keyword_score h = keyword_of k (id h)
          /\ related_score h = related_of r (id h)
          /\ combined_score h =
               (semantic_score h * 0.5 + keyword_score h * 0.4
                + related_score h * 0.1)%float).
Proof.
  intros self q top_k t hits t' Hrun s k r.
  apply hybrid_search_returned in Hrun. destruct Hrun as (_ & _ & -> & _).
  fold s k r.
  pose proof (NoDup_hit_ids_fuse_and_rank s k r top_k) as Hd.
  split; [exact Hd|]. split.
  - intros h1 h2 H1 H2 Hid.
    exact (NoDup_map_same (fun h : ScoredHit => id h) _ h1 h2 Hd H1 H2 Hid).
  - intros h Hin. apply fuse_and_rank_In in Hin.
    destruct (scored_hit_scores _ _ _ _ Hin) as (Hc & Hs & Hk & Hr). auto.
Qed.

(** In the example Lion comes from the semantic and from the keyword
    channel: it is returned once, with the score of each. *)
Lemma hybrid_search_unique_ids_witness :
  exists hits t',
    hybrid_search animals_rag lions_question 10 [] = (Returned hits, t')
    /\ hit_ids hits
       = ["Animals:Entry:Lion"; "Animals:Entry:Hyena";
          "Animals:Entry:Leopard"]%string
    /\ NoDup (hit_ids hits)
    /\ exists h : ScoredHit,
         nth_error hits 0 = Some h
         /\ semantic_score h = 0.82%float /\ keyword_score h = 3.1%float
         /\ related_score h = 0%float.
Proof.
  eexists. eexists. split; [reflexivity|]. split; [reflexivity|].
  destruct (hybrid_search_unique_ids animals_rag lions_question 10 [] _ _
              eq_refl) as (Hd & _ & Hscores).
  split; [exact Hd|].
  eexists. split; [reflexivity|].
  destruct (Hscores _ (or_introl eq_refl)) as (Hs & Hk & Hr & _).
  rewrite Hs, Hk, Hr. repeat split.
Defined.

(** C3: the transform [1 / distance if distance > 0 else 0] never raises
    [ZeroDivisionError], whatever the integer; it is [1 / distance] for a
    positive distance ([1.0] at distance 1, [0.5] at distance 2) and [0] at
    distance 0. *)
Theorem related_score_transform :
  (forall distance,
      related_score_checked distance = Some (related_score_of distance))
  /\ (forall distance, 0 < distance ->
        related_score_of distance
        = (PyFloat.of_int 1 / PyFloat.of_int distance)%float)
  /\ related_score_of 1 = 1%float
  /\ related_score_of 2 = 0.5%float
  /\ related_score_of 0 = 0%float.
Proof.
  split; [|split; [|repeat split]].
  - intros d. unfold related_score_checked, related_score_of, PyFloat.int_truediv.
    destruct (d >? 0) eqn:E; [|reflexivity].
    apply Z.gtb_lt in E. destruct (d =? 0) eqn:E0; [|reflexivity].
    apply Z.eqb_eq in E0. lia.
  - intros d Hd. unfold related_score_of.
    destruct (d >? 0) eqn:E; [reflexivity|].
    rewrite Z.gtb_ltb in E. apply Z.ltb_ge in E. lia.
Qed.

(** Distance 3. *)
Lemma related_score_transform_witness :
  related_score_checked 3 = Some (PyFloat.of_int 1 / PyFloat.of_int 3)%float.
Proof.
  destruct related_score_transform as (Hsafe & Hpos & _).
  rewrite Hsafe. rewrite (Hpos 3); [reflexivity|lia].
Defined.

(** On numbers, hits of one combined score leave the sort in the order
    they had. *)
Lemma fuse_and_rank_stable s k r top_k c :
  (forall h, In h (scored_hits s k r) -> is_nan (combined_score h) = false) ->
  exists rest,
    filter (same_score c) (scored_hits s k r)
    = filter (same_score c) (fuse_and_rank s k r top_k) ++ rest.
Proof.
  intros Hnum. destruct (fuse_and_rank_numbers s k r top_k Hnum) as [n ->].
  rewrite <- (PyListFacts.stable_sort_filter higher_combined (same_score c)
                (scored_hits s k r) (same_score_unordered c)).
  apply PyListFacts.filter_firstn_prefix.
Qed.

(** C10, as the code has it: the ranked list is a function of the three
    channels' rows and [top_k]: two runs (whatever the objects, questions
    and traces) whose channels return the same rows return the same list.
    The keys of [all_results] stand in insertion order: the semantic
    identifiers in channel order (first occurrences), then the identifiers
    only the keyword channel adds, then those only the relational channel
    adds.  And when no combined score is NaN, the hits of any one combined
    score appear in the returned list in that insertion order (they are a
    prefix of the insertion-ordered hits of that score), since the sort is
    stable. *)
Theorem fusion_deterministic_stable :
  (forall self1 self2 q1 q2 top_k t1 t2 hits1 hits2 t1' t2',
      hybrid_search self1 q1 top_k t1 = (Returned hits1, t1') ->
      hybrid_search self2 q2 top_k t2 = (Returned hits2, t2') ->
      semantic_rows self1 q1 20 = semantic_rows self2 q2 20 ->
      keyword_rows self1 q1 5 = keyword_rows self2 q2 5 ->
      related_channel self1 (semantic_rows self1 q1 20)
      = related_channel self2 (semantic_rows self2 q2 20) ->
      hits1 = hits2)
  /\ (forall s k r,
        hit_ids (scored_hits s k r)
        = first_occurrences (ids sem_entry s)
            ++ first_occurrences
                 (filter (absent_from (ids sem_entry s)) (ids kw_entry k))
            ++ first_occurrences
                 (filter (absent_from (ids sem_entry s ++ ids kw_entry k))
                    (ids rel_entry r)))
  /\ (forall s k r top_k c,
        (forall h, In h (scored_hits s k r) ->
                   is_nan (combined_score h) = false) ->
        exists rest,
          filter (same_score c) (scored_hits s k r)
          = filter (same_score c) (fuse_and_rank s k r top_k) ++ rest).
Proof.
  split; [|split].
  - intros self1 self2 q1 q2 top_k t1 t2 hits1 hits2 t1' t2' H1 H2 Hs Hk Hr.
    apply hybrid_search_returned in H1, H2.
    destruct H1 as (_ & _ & -> & _), H2 as (_ & _ & -> & _).
    now rewrite Hr, Hs, Hk.
  - intros s k r. rewrite hit_ids_scored_hits.
    destruct (merged_all_results s k r) as [-> _].
    apply first_occurrences_three.
  - apply fuse_and_rank_stable.
Qed.

(** Two questions the example's indexes answer alike; and its two hits of
    score [0.1], Hyena before Leopard as the relational channel listed
    them. *)
Lemma fusion_deterministic_stable_witness :
  (exists hits,
      fst (hybrid_search animals_rag lions_question 10 []) = Returned hits
      /\ fst (hybrid_search animals_rag "What do hyenas eat?" 10
                [Call_semantic_search lions_question 20]) = Returned hits)
  /\ exists rest,
       hit_ids
         (filter (same_score 0.1)
            (scored_hits (semantic_rows animals_rag lions_question 20)
               (keyword_rows animals_rag lions_question 5)
               (related_channel animals_rag
                  (semantic_rows animals_rag lions_question 20))))
       = ["Animals:Entry:Hyena"; "Animals:Entry:Leopard"]%string ++ rest.
Proof.
  destruct fusion_deterministic_stable as (Hdet & _ & Hstable).
  split.
  - pose proof (Hdet animals_rag animals_rag lions_question
                  "What do hyenas eat?"%string 10 []
                  [Call_semantic_search lions_question 20] _ _ _ _
                  eq_refl eq_refl eq_refl eq_refl eq_refl) as Hsame.
    match type of Hsame with ?hits1 = _ => exists hits1 end.
    split; [reflexivity|]. rewrite Hsame. reflexivity.
  - destruct (Hstable (semantic_rows animals_rag lions_question 20)
                (keyword_rows animals_rag lions_question 5)
                (related_channel animals_rag
                   (semantic_rows animals_rag lions_question 20))
                10 0.1%float) as [rest Hrest].
    + intros h Hin. vm_compute in Hin.
      destruct Hin as [<-|[<-|[<-|[]]]]; reflexivity.
    + exists (hit_ids rest). rewrite Hrest.
      unfold hit_ids. rewrite map_app. reflexivity.
Defined.

(** C10 as stated fails with a NaN among the scores: the sort then leaves
    hits of one score out of their insertion order.  Of the two hits of
    score 3, [x] was inserted first and [e] is returned first. *)
Lemma fusion_deterministic_stable_counterexample :
  hit_ids (scored_hits nan_rows [] [])
  = ["x"; "one"; "e"; "n"; "a"; "b"; "c"]%string
  /\ hit_ids (fuse_and_rank nan_rows [] [] 10)
     = ["e"; "n"; "a"; "b"; "c"; "x"; "one"]%string
  /\ hit_ids (filter (same_score 3) (scored_hits nan_rows [] []))
     = ["x"; "e"]%string
  /\ hit_ids (filter (same_score 3) (fuse_and_rank nan_rows [] [] 10))
     = ["e"; "x"]%string
  /\ ~ exists rest,
        filter (same_score 3) (scored_hits nan_rows [] [])
        = filter (same_score 3) (fuse_and_rank nan_rows [] [] 10) ++ rest.
Proof.
  repeat split; try reflexivity.
  intros [rest H]. apply (f_equal hit_ids) in H.
  vm_compute in H. discriminate H.
Qed.

(** The calls of [get_related_entries] in the calls a run adds. *)
Lemma related_calls_of_run q (l : list (string * Z)) :
  related_calls
    ([Call_semantic_search q 20; Call_keyword_search q 5]
       ++ map (fun a => Call_get_related_entries (fst a) (snd a)) l) = l.
Proof. rewrite related_calls_app, related_calls_map. reflexivity. Qed.

(** C5, as the code has it: a run of [hybrid_search] calls
    [get_related_entries] at most once, however it ends.  When both
    searches answer, it is called exactly when [semantic_search] returned a
    row: once, with the identifier of the first semantic row and depth 1,
    and its rows are the relational channel that is fused; with no semantic
    row it is not called and the relational channel fused is empty.  When a
    search raises, the run ends there with that exception and
    [get_related_entries] is not called, whatever [semantic_search]
    returned. *)
Theorem hybrid_search_related_once :
  forall self q top_k t,
    exists calls,
      snd (hybrid_search self q top_k t) = t ++ calls
      /\ (List.length (related_calls calls) <= 1)%nat
      /\ match search_error (driver self) (VectorSearch q 20),
               search_error (driver self) (FulltextSearch q 5) with
         | None, None =>
             match semantic_rows self q 20 with
             | [] =>
                 related_calls calls = []
                 /\ fst (hybrid_search self q top_k t)
                    = Returned
                        (fuse_and_rank [] (keyword_rows self q 5) [] top_k)
             | top :: rest =>
                 related_calls calls = [(id top, 1)]
                 /\ fst (hybrid_search self q top_k t)
                    = Returned
                        (fuse_and_rank (top :: rest) (keyword_rows self q 5)
                           (related_rows (graph (driver self)) (id top) 1)
                           top_k)
             end
         | Some e, _ | None, Some e =>
             related_calls calls = []
             /\ fst (hybrid_search self q top_k t) = Raised e
         end.
Proof.
  intros self q top_k t. rewrite hybrid_search_run.
  destruct (search_error (driver self) (VectorSearch q 20)) as [e|].
  { exists [Call_semantic_search q 20]. simpl. auto. }
  destruct (search_error (driver self) (FulltextSearch q 5)) as [e|].
  { exists [Call_semantic_search q 20; Call_keyword_search q 5]. simpl. auto. }
  eexists. split; [reflexivity|].
  rewrite related_calls_of_run. unfold related_channel.
  destruct (semantic_rows self q 20) as [|top rest]; simpl; auto.
Qed.

(** C5 as stated fails when the keyword search raises:
    [semantic_search] has returned a hit, and [get_related_entries] is not
    called. *)
Lemma hybrid_search_related_once_counterexample :
  exists top rest e,
    semantic_search unparsed_rag "lions AND" 20 []
    = (Returned (top :: rest), [Call_semantic_search "lions AND" 20])
    /\ hybrid_search unparsed_rag "lions AND" 10 []
       = (Raised e,
          [Call_semantic_search "lions AND" 20;
           Call_keyword_search "lions AND" 5])
    /\ related_calls (snd (hybrid_search unparsed_rag "lions AND" 10 [])) = [].
Proof.
  eexists. eexists. eexists. repeat split.
Qed.

(** C7: when the fused list is empty [query] returns the fixed answer with
    no sources (and no context), and the run has called neither
    [build_context] nor [generate_answer_ollama] nor [requests.post]; this
    is the case whenever the semantic and the keyword channel both return
    nothing (the relational channel is then not consulted). *)
Theorem query_not_found :
  (forall self q t t1,
      hybrid_search self q 5 t = (Returned [], t1) ->
      query self q t =
        (Returned {| answer := not_found_answer; sources := [];
                     result_context := None |}, t1)
      /\ exists calls,
           t1 = t ++ calls
           /\ existsb is_generation_call calls = false
           /\ existsb is_context_call calls = false)
  /\ (forall self q t,
        fst (semantic_search self q 20 t) = Returned [] ->
        fst (keyword_search self q 5 (t ++ [Call_semantic_search q 20]))
        = Returned [] ->
        query self q t =
          (Returned {| answer := not_found_answer; sources := [];
                       result_context := None |},
           t ++ [Call_semantic_search q 20; Call_keyword_search q 5])).
Proof.
  split.
  - intros self q t t1 Hrun. split.
    + now rewrite (query_run _ _ _ _ _ Hrun).
    + apply hybrid_search_returned in Hrun.
      destruct Hrun as (_ & _ & _ & ->).
      eexists. split; [reflexivity|].
      destruct (semantic_rows self q 20); split; reflexivity.
  - intros self q t Hs Hk.
    rewrite semantic_search_run in Hs. rewrite keyword_search_run in Hk.
    cbn [fst] in Hs, Hk.
    destruct (search_error (driver self) (VectorSearch q 20)) eqn:Es;
      [discriminate|].
    destruct (search_error (driver self) (FulltextSearch q 5)) eqn:Ek;
      [discriminate|].
    injection Hs as Hs. injection Hk as Hk.
    assert (Hrun : hybrid_search self q 5 t =
                   (Returned [], t ++ [Call_semantic_search q 20;
                                       Call_keyword_search q 5])).
    { rewrite hybrid_search_run, Es, Ek, Hs, Hk. reflexivity. }
    now rewrite (query_run _ _ _ _ _ Hrun).
Qed.

(** The object whose indexes find nothing. *)
Lemma query_not_found_witness :
  query silent_rag lions_question [] =
  (Returned {| answer := not_found_answer; sources := [];
               result_context := None |},
   [Call_semantic_search lions_question 20;
    Call_keyword_search lions_question 5]).
Proof.
  exact (proj1 (proj1 query_not_found silent_rag lions_question [] _ eq_refl)).
Defined.

(** C9, as the code has it: the request is posted with [timeout=120], and
    every failure of it that [requests] reports (an exception of any of
    its classes, [Timeout] among them, an error status, a body that does
    not decode) is caught where it is made: [generate_answer_ollama]
    returns the text ["Error communicating with Ollama: "] followed by the
    exception's message, and [query] then still returns, with that text as
    the answer and with the sources and the context of the fused hits.  The
    one result of the request on which [generate_answer_ollama] raises is
    an answer without error status whose body decodes to something other
    than an object. *)
Theorem generation_failure_is_answer :
  (forall self q ctx t e,
      request_failure
        (requests_post self (generate_url self) (payload_of self q ctx) 120)
      = Some e ->
      generate_answer_ollama self q ctx t =
      (Returned ("Error communicating with Ollama: " ++ str_of_exception e)%string,
       t ++ [Call_generate_answer_ollama q ctx;
             Call_requests_post (generate_url self) (payload_of self q ctx)
               120]))
  /\ (forall self q ctx t msg,
        requests_post self (generate_url self) (payload_of self q ctx) 120
        = PostRaised Timeout msg ->
        fst (generate_answer_ollama self q ctx t) =
        Returned ("Error communicating with Ollama: " ++ msg)%string)
  /\ (forall self q t hits t1 e,
        hybrid_search self q 5 t = (Returned hits, t1) ->
        hits <> [] ->
        request_failure
          (requests_post self (generate_url self)
             (payload_of self q (build_context hits 4000)) 120)
        = Some e ->
        fst (query self q t) =
        Returned
          {| answer :=
               ("Error communicating with Ollama: " ++ str_of_exception e)%string;
             sources := map source_of hits;
             result_context := Some (build_context hits 4000) |})
  /\ (forall self q ctx t e t',
        generate_answer_ollama self q ctx t = (Raised e, t') ->
        exists response type_name,
          requests_post self (generate_url self) (payload_of self q ctx) 120
          = PostReturned response
          /\ ((400 <=? status_code response)
               && (status_code response <? 600))%bool = false
          /\ json_body response = inr (JsonOther type_name)).
Proof.
  assert (Hfail : forall self q ctx t e,
             request_failure
               (requests_post self (generate_url self) (payload_of self q ctx) 120)
             = Some e ->
             generate_answer_ollama self q ctx t =
             (Returned ("Error communicating with Ollama: "
                        ++ str_of_exception e)%string,
              t ++ [Call_generate_answer_ollama q ctx;
                    Call_requests_post (generate_url self)
                      (payload_of self q ctx) 120])).
  { intros self q ctx t e Hf. rewrite generate_answer_ollama_run.
    unfold request_failure in Hf.
    destruct (requests_post self _ _ 120) as [response|c msg].
    - destruct ((400 <=? status_code response)
                && (status_code response <? 600))%bool.
      + now injection Hf as <-.
      + destruct (json_body response); [now injection Hf as <-|discriminate].
    - now injection Hf as <-. }
  split; [|split; [|split]].
  - exact Hfail.
  - intros self q ctx t msg Hpost.
    rewrite (Hfail self q ctx t (RequestException Timeout msg));
      [reflexivity|]. now rewrite Hpost.
  - intros self q t hits t1 e Hrun Hne Hf.
    rewrite (query_run _ _ _ _ _ Hrun).
    destruct hits as [|h hits]; [congruence|]. cbv zeta.
    now rewrite (Hfail self q (build_context (h :: hits) 4000)
                   (t1 ++ [Call_build_context (h :: hits) 4000]) e Hf).
  - intros self q ctx t e t'. rewrite generate_answer_ollama_run.
    destruct (requests_post self _ _ 120) as [response|c msg];
      [|discriminate].
    destruct ((400 <=? status_code response)
              && (status_code response <? 600))%bool eqn:Estatus;
      [discriminate|].
    destruct (json_body response) as [msg|[members|type_name]] eqn:Ebody;
      try discriminate.
    intros _. exists response, type_name. auto.
Qed.

(** The example, whose generation service times out. *)
Lemma generation_failure_is_answer_witness :
  exists hits,
    fst (hybrid_search animals_rag lions_question 5 []) = Returned hits
    /\ fst (query animals_rag lions_question []) =
       Returned
         {| answer :=
              "Error communicating with Ollama: Read timed out. (read timeout=120)";
            sources := map source_of hits;
            result_context := Some (build_context hits 4000) |}.
Proof.
  eexists. split; [reflexivity|].
  refine (proj1 (proj2 (proj2 generation_failure_is_answer))
            animals_rag lions_question [] _ _
            (RequestException Timeout "Read timed out. (read timeout=120)")
            eq_refl _ eq_refl).
  discriminate.
Defined.

(** C9 as stated fails when the service answers 200 with a body that is
    JSON but no object: [result.get] raises [AttributeError], which the
    [except] clause does not catch, and [query] raises it too: no answer,
    no sources and no context are returned. *)
Lemma generation_failure_is_answer_counterexample :
  exists hits t1,
    hybrid_search listing_rag lions_question 5 [] = (Returned hits, t1)
    /\ hits <> []
    /\ fst (generate_answer_ollama listing_rag lions_question
              (build_context hits 4000) (t1 ++ [Call_build_context hits 4000]))
       = Raised (AttributeError "'list' object has no attribute 'get'")
    /\ fst (query listing_rag lions_question [])
       = Raised (AttributeError "'list' object has no attribute 'get'").
Proof.
  eexists. eexists. split; [reflexivity|]. split; [discriminate|].
  split; reflexivity.
Qed.

(** ** The context assembler *)

Module ContextFacts.

Lemma length_append (a b : string) :
  String.length (a ++ b) = (String.length a + String.length b)%nat.
Proof. induction a as [|c a IH]; simpl; [reflexivity|now rewrite IH]. Qed.

Lemma len_concat (parts : list string) :
  len (String.concat "" parts) = total_length parts.
Proof.
  unfold len. induction parts as [|p parts IH]; [reflexivity|].
  destruct parts as [|p' parts].
  - simpl. unfold len. lia.
  - change (String.concat "" (p :: p' :: parts))
      with (p ++ "" ++ String.concat "" (p' :: parts))%string.
    rewrite length_append.
    change ("" ++ String.concat "" (p' :: parts))%string
      with (String.concat "" (p' :: parts)).
    change (total_length (p :: p' :: parts))
      with (len p + total_length (p' :: parts)).
    rewrite <- IH. unfold len. lia.
Qed.

(** The loop keeps a prefix of the blocks: the longest one that fits. *)
Lemma context_parts_prefix entries :
  forall i current_length max_length,
  exists n,
    context_parts i entries current_length max_length
    = firstn n (source_parts i entries)
    /\ (n = 0%nat \/
        current_length + total_length (firstn n (source_parts i entries))
        <= max_length)
    /\ (n = List.length entries \/
        current_length + total_length (firstn (S n) (source_parts i entries))
        > max_length).
Proof.
  induction entries as [|entry rest IH]; intros i cur mx.
  - exists 0%nat. simpl. auto.
  - simpl context_parts. simpl source_parts.
    destruct (cur + len (source_part i entry) >? mx) eqn:E.
    + exists 0%nat. apply Z.gtb_lt in E.
      split; [reflexivity|]. split; [now left|]. right. simpl.
      unfold total_length. simpl. lia.
    + rewrite Z.gtb_ltb in E. apply Z.ltb_ge in E.
      destruct (IH (S i) (cur + len (source_part i entry)) mx)
        as (n & Hparts & Hfit & Hstop).
      exists (S n). split; [simpl; now rewrite Hparts|].
      split.
      * right.
        change (total_length (firstn (S n) (source_part i entry
                                            :: source_parts (S i) rest)))
          with (len (source_part i entry)
                + total_length (firstn n (source_parts (S i) rest))).
        destruct Hfit as [->|Hfit]; [simpl; unfold total_length; simpl|]; lia.
      * destruct Hstop as [->|Hstop]; [now left|right].
        change (total_length (firstn (S (S n)) (source_part i entry
                                                :: source_parts (S i) rest)))
          with (len (source_part i entry)
                + total_length (firstn (S n) (source_parts (S i) rest))).
        lia.
Qed.

End ContextFacts.

(** C6, as the code has it: [build_context] joins whole blocks, a prefix of
    the ranked list's blocks in order; the prefix stops exactly before the
    first block that would take the length past [max_length] (every block
    kept fitted, and either all are kept or the next one does not fit); for
    a non-negative [max_length] the text is never longer than [max_length],
    whatever the sizes of the blocks; and the empty list gives the empty
    text. *)
Theorem build_context_whole_blocks :
  forall entries max_length,
    (exists n,
        build_context entries max_length
        = String.concat "" (firstn n (source_parts 1 entries))
        /\ (n = 0%nat \/
            total_length (firstn n (source_parts 1 entries)) <= max_length)
        /\ (n = List.length entries \/
            total_length (firstn (S n) (source_parts 1 entries)) > max_length))
    /\ (0 <= max_length -> len (build_context entries max_length) <= max_length)
    /\ build_context [] max_length = ""%string.
Proof.
  intros entries mx.
  destruct (ContextFacts.context_parts_prefix entries 1 0 mx)
    as (n & Hparts & Hfit & Hstop).
  assert (Hb : build_context entries mx
               = String.concat "" (firstn n (source_parts 1 entries))).
  { unfold build_context. now rewrite Hparts. }
  split; [|split].
  - exists n. repeat split; assumption.
  - intros Hmx. rewrite Hb, ContextFacts.len_concat.
    destruct Hfit as [->|Hfit]; [simpl|]; lia.
  - reflexivity.
Qed.

(** The example's three blocks under a budget that holds two of them. *)
Lemma build_context_whole_blocks_witness :
  let hits :=
    fuse_and_rank (semantic_rows animals_rag lions_question 20)
      (keyword_rows animals_rag lions_question 5)
      (related_channel animals_rag (semantic_rows animals_rag lions_question 20))
      10 in
  len (build_context hits 200) <= 200
  /\ build_context hits 200
     = String.concat "" (firstn 2 (source_parts 1 hits)).
Proof.
  intros hits. split.
  - apply (build_context_whole_blocks hits 200). lia.
  - reflexivity.
Defined.

(** C6 as stated fails on the empty list with a negative [max_length]: no
    block is longer than [max_length] (there is none), and the empty text
    is longer than [-1]. *)
Lemma build_context_whole_blocks_counterexample :
  (forall part, In part (source_parts 1 []) -> len part <= -1)
  /\ ~ len (build_context [] (-1)) <= -1.
Proof.
  split.
  - intros part [].
  - vm_compute. intros H. apply H. reflexivity.
Qed.

(** ** The relational expander *)

Module TraversalFacts.

Lemma numbered_nth_error {A : Type} (l : list A) i x :
  In (i, x) (numbered l) -> nth_error l i = Some x.
Proof.
  unfold numbered.
  assert (H : forall s, In (i, x) (combine (seq s (List.length l)) l) ->
                        (s <= i)%nat /\ nth_error l (i - s) = Some x).
  { induction l as [|y l IH]; intros s Hin; [destruct Hin|].
    simpl in Hin. destruct Hin as [[= <- <-]|Hin].
    - rewrite Nat.sub_diag. auto.
    - destruct (IH _ Hin) as [Hle Hnth]. split; [lia|].
      replace (i - s)%nat with (S (i - S s)) by lia. exact Hnth. }
  intros Hin. destruct (H 0%nat Hin) as [_ Hnth].
  now rewrite Nat.sub_0_r in Hnth.
Qed.

Lemma numbered_In {A : Type} (l : list A) i x : In (i, x) (numbered l) -> In x l.
Proof. intros H. eapply nth_error_In, numbered_nth_error, H. Qed.

(** Every listed path is a route of the listed length. *)
Lemma paths_from_route g hops :
  forall current used e n,
    In (e, n) (paths_from g hops current used) ->
    exists m, n = (List.length used + m)%nat /\ (1 <= m <= hops)%nat
              /\ route g current e m.
Proof.
  induction hops as [|hops IH]; intros current used e n Hin; [destruct Hin|].
  simpl in Hin. apply in_flat_map in Hin. destruct Hin as ([i r] & Hir & Hin).
  destruct (traversed (rel_type r)) eqn:Et; [|destruct Hin].
  destruct (Nat.eqb (start_node r) current) eqn:Es; [|destruct Hin].
  destruct (negb (existsb (Nat.eqb i) used)); [|destruct Hin].
  apply Nat.eqb_eq in Es. subst current. apply numbered_In in Hir.
  simpl in Hin. destruct Hin as [[= <- <-]|Hin].
  - exists 1%nat. repeat split; try lia. now constructor.
  - destruct (IH _ _ _ _ Hin) as (m & -> & Hm & Hroute).
    exists (S m). simpl. repeat split; try lia. now apply route_cons.
Qed.

Lemma entries_with_id_spec g entry_id seed :
  In seed (entries_with_id g entry_id) ->
  exists seed_node,
    nth_error (nodes g) seed = Some seed_node
    /\ is_label L_Entry seed_node = true /\ node_id seed_node = entry_id.
Proof.
  unfold entries_with_id. intros Hin. apply in_flat_map in Hin.
  destruct Hin as ([i node] & Hi & Hin). cbn [fst snd] in Hin.
  destruct (is_label L_Entry node) eqn:El; [|destruct Hin].
  destruct (String.eqb (node_id node) entry_id) eqn:Ei; [|destruct Hin].
  destruct Hin as [<-|[]]. apply String.eqb_eq in Ei.
  exists node. split; [now apply numbered_nth_error|auto].
Qed.

Lemma related_matches_reaches g entry_id depth row :
  In row (related_matches g entry_id depth) -> reaches g entry_id depth row.
Proof.
  unfold related_matches. intros Hin.
  apply in_flat_map in Hin. destruct Hin as (seed & Hseed & Hin).
  apply in_flat_map in Hin. destruct Hin as ([related n] & Hpath & Hin).
  cbn [fst snd] in Hin.
  destruct (nth_error (nodes g) related) as [related_node|] eqn:En; [|destruct Hin].
  destruct (is_label L_Entry related_node) eqn:El; [|destruct Hin].
  apply in_map_iff in Hin. destruct Hin as (kb & <- & Hkb).
  destruct (entries_with_id_spec _ _ _ Hseed) as (seed_node & Hs1 & Hs2 & Hs3).
  destruct (paths_from_route _ _ _ _ _ _ Hpath) as (m & -> & Hm & Hroute).
  exists seed, related, m, seed_node, related_node, kb. simpl. auto 10.
Qed.

Lemma nearer_asym x y : nearer x y = true -> nearer y x = false.
Proof. unfold nearer. rewrite Z.ltb_lt, Z.ltb_ge. lia. Qed.

Lemma related_rows_In g entry_id depth row :
  In row (related_rows g entry_id depth) ->
  In row (related_matches g entry_id depth).
Proof.
  unfold related_rows. intros Hin. apply FusionFacts.In_firstn_In in Hin.
  apply (Permutation_in _ (Permutation_sym
                             (PyListFacts.stable_sort_perm nearer _))) in Hin.
  now apply nodup_In in Hin.
Qed.

Lemma related_rows_NoDup g entry_id depth :
  NoDup (related_rows g entry_id depth).
Proof.
  unfold related_rows. apply FusionFacts.NoDup_firstn.
  eapply Permutation_NoDup; [apply PyListFacts.stable_sort_perm|].
  apply NoDup_nodup.
Qed.

Lemma related_rows_ascending g entry_id depth :
  ascending_distance (related_rows g entry_id depth).
Proof.
  intros i a b Ha Hb.
  assert (Hs : Sorted (PyList.in_order nearer) (related_rows g entry_id depth)).
  { apply PyListFacts.Sorted_firstn, PyListFacts.stable_sort_sorted.
    exact nearer_asym. }
  pose proof (PyListFacts.Sorted_consecutive _ _ Hs _ _ _ Ha Hb) as Hord.
  unfold PyList.in_order, nearer in Hord. now apply Z.ltb_ge in Hord.
Qed.

Lemma nth_error_numbered {A : Type} (l : list A) i x :
  nth_error l i = Some x -> In (i, x) (numbered l).
Proof.
  unfold numbered.
  assert (H : forall s j, nth_error l j = Some x ->
                          In ((s + j)%nat, x) (combine (seq s (List.length l)) l)).
  { induction l as [|y l IH]; intros s j Hj; [destruct j; discriminate|].
    destruct j as [|j]; simpl in *.
    - injection Hj as ->. left. f_equal. lia.
    - right. replace (s + S j)%nat with (S s + j)%nat by lia. now apply IH. }
  intros Hi. exact (H 0%nat i Hi).
Qed.

Lemma entry_ids_unique_spec g i j ni nj :
  entry_ids_unique g = true ->
  nth_error (nodes g) i = Some ni -> nth_error (nodes g) j = Some nj ->
  is_label L_Entry ni = true -> is_label L_Entry nj = true ->
  node_id ni = node_id nj -> i = j.
Proof.
  unfold entry_ids_unique. intros Hu Hi Hj Li Lj Hid.
  rewrite forallb_forall in Hu.
  specialize (Hu _ (nth_error_numbered _ _ _ Hi)).
  rewrite forallb_forall in Hu.
  specialize (Hu _ (nth_error_numbered _ _ _ Hj)). cbn [fst snd] in Hu.
  rewrite Li, Lj, Hid, String.eqb_refl in Hu. simpl in Hu.
  now apply Nat.eqb_eq.
Qed.

Lemma one_knowledge_base_spec g node kb kb' :
  one_knowledge_base g = true -> (node < List.length (nodes g))%nat ->
  In kb (containing_kbs g node) -> In kb' (containing_kbs g node) ->
  node_name kb = node_name kb'.
Proof.
  unfold one_knowledge_base. intros Ho Hn Hkb Hkb'.
  rewrite forallb_forall in Ho.
  assert (Hin : In node (seq 0 (List.length (nodes g))))
    by (apply in_seq; lia).
  specialize (Ho _ Hin).
  destruct (containing_kbs g node) as [|kb0 rest]; [destruct Hkb|].
  rewrite forallb_forall in Ho.
  assert (H0 : forall x, In x (kb0 :: rest) -> node_name x = node_name kb0).
  { intros x [<-|Hx]; [reflexivity|]. now apply String.eqb_eq, Ho. }
  now rewrite (H0 _ Hkb), (H0 _ Hkb').
Qed.

(** Under the store's constraints two rows of one traversal with one
    identifier and one distance are one row. *)
Lemma reaches_same_id g entry_id depth a b :
  entry_ids_unique g = true -> one_knowledge_base g = true ->
  reaches g entry_id depth a -> reaches g entry_id depth b ->
  id a = id b -> distance a = distance b -> a = b.
Proof.
  intros Hu Ho Ha Hb Hid Hd.
  destruct Ha as (sa & ra & na & sna & rna & kba & _ & _ & _ & Hra & Lra & Hka & _ & _ & ->).
  destruct Hb as (sb & rb & nb & snb & rnb & kbb & _ & _ & _ & Hrb & Lrb & Hkb & _ & _ & ->).
  simpl in Hid, Hd.
  assert (ra = rb) by (eapply entry_ids_unique_spec; eassumption). subst rb.
  assert (rna = rnb) by congruence. subst rnb.
  assert (Hlt : (ra < List.length (nodes g))%nat)
    by (apply nth_error_Some; congruence).
  rewrite Hd. f_equal. unfold entry_columns. f_equal.
  eapply one_knowledge_base_spec; eassumption.
Qed.

Lemma entries_with_id_complete g entry_id seed seed_node :
  nth_error (nodes g) seed = Some seed_node ->
  is_label L_Entry seed_node = true -> node_id seed_node = entry_id ->
  In seed (entries_with_id g entry_id).
Proof.
  intros Hn Hl Hi. unfold entries_with_id. apply in_flat_map.
  exists (seed, seed_node). split; [now apply nth_error_numbered|].
  cbn [fst snd]. rewrite Hl, Hi, String.eqb_refl. now left.
Qed.

(** *** Shortest routes are listed paths *)

Lemma route_walk g a b n :
  route g a b n -> exists p, walk g a b p /\ List.length p = n /\ p <> [].
Proof.
  induction 1 as [r Hr Ht | r b n Hr Ht Hroute (p & Hw & Hl & Hne)];
    destruct (In_nth_error _ _ Hr) as [i Hi].
  - exists [i]. split; [|split; [reflexivity|discriminate]].
    eapply walk_cons; eauto. constructor.
  - exists (i :: p). split; [eapply walk_cons; eauto|].
    split; [simpl; lia|discriminate].
Qed.

Lemma walk_split g p1 :
  forall a b p2,
    walk g a b (p1 ++ p2) -> exists c, walk g a c p1 /\ walk g c b p2.
Proof.
  induction p1 as [|i p1 IH]; intros a b p2 Hw; simpl in Hw.
  - exists a. split; [constructor|exact Hw].
  - inversion Hw as [|? r ? ? Hi Ht Hrest]; subst.
    destruct (IH _ _ _ Hrest) as (c & H1 & H2).
    exists c. split; [econstructor; eauto|exact H2].
Qed.

Lemma walk_app g a c b p1 p2 :
  walk g a c p1 -> walk g c b p2 -> walk g a b (p1 ++ p2).
Proof.
  induction 1 as [a|i r c p1 Hi Ht Hw IH]; intros H2; [exact H2|].
  simpl. econstructor; eauto.
Qed.

(** A walk that takes a relationship twice has a loop, which can be left
    out. *)
Lemma walk_cut g a b i p1 p2 p3 :
  walk g a b (p1 ++ i :: p2 ++ i :: p3) -> walk g a b (p1 ++ i :: p3).
Proof.
  intros Hw. apply walk_split in Hw. destruct Hw as (c & H1 & Hw).
  apply (walk_app _ _ c); [exact H1|].
  inversion Hw as [|? r ? ? Hi Ht Hrest]; subst.
  apply walk_split in Hrest. destruct Hrest as (d & _ & Hrest).
  inversion Hrest as [|? r' ? ? Hi' Ht' Hrest']; subst.
  assert (r' = r) by congruence. subst r'.
  econstructor; eauto.
Qed.

(** Every walk has a trail between the same nodes that is no longer. *)
Lemma walk_trail g a b :
  forall n p,
    (List.length p <= n)%nat -> walk g a b p -> p <> [] ->
    exists p',
      walk g a b p' /\ NoDup p' /\ p' <> []
      /\ (List.length p' <= List.length p)%nat.
Proof.
  induction n as [|n IH]; intros p Hlen Hw Hne.
  - destruct p; [congruence|simpl in Hlen; lia].
  - destruct (NoDup_decidable Nat.eq_decidable p) as [Hd|Hd].
    + exists p. auto.
    + apply (not_NoDup Nat.eq_decidable) in Hd.
      destruct Hd as (i & l1 & l2 & l3 & ->).
      apply walk_cut in Hw.
      rewrite !length_app in Hlen. cbn [List.length] in Hlen.
      rewrite length_app in Hlen. cbn [List.length] in Hlen.
      destruct (IH (l1 ++ i :: l3)) as (p' & Hw' & Hd' & Hne' & Hlen').
      * rewrite length_app. cbn [List.length]. lia.
      * exact Hw.
      * destruct l1; discriminate.
      * exists p'. repeat split; try assumption.
        rewrite length_app in Hlen'. cbn [List.length] in Hlen'.
        rewrite !length_app. cbn [List.length].
        rewrite length_app. cbn [List.length]. lia.
Qed.

(** The pattern lists every trail of at most [hops] relationships. *)
Lemma paths_from_complete g hops :
  forall current used e p,
    walk g current e p -> p <> [] -> NoDup p ->
    (forall i, In i p -> ~ In i used) ->
    (List.length p <= hops)%nat ->
    In (e, (List.length used + List.length p)%nat)
      (paths_from g hops current used).
Proof.
  induction hops as [|hops IH]; intros current used e p Hw Hne Hd Hnew Hlen.
  - destruct p; [congruence|simpl in Hlen; lia].
  - inversion Hw as [|i r ? p' Hi Ht Hrest]; subst; [congruence|].
    cbn [paths_from]. apply in_flat_map. exists (i, r).
    split; [now apply nth_error_numbered|].
    rewrite Ht, Nat.eqb_refl.
    assert (Hfresh : existsb (Nat.eqb i) used = false).
    { destruct (existsb (Nat.eqb i) used) eqn:E; [|reflexivity].
      apply existsb_exists in E. destruct E as (j & Hj & Hij).
      apply Nat.eqb_eq in Hij. subst j.
      exfalso. apply (Hnew i); [now left|exact Hj]. }
    rewrite Hfresh. cbn [andb negb].
    inversion Hd as [|? ? Hnot Hd']; subst.
    destruct p' as [|j p'].
    + inversion Hrest; subst. left. f_equal. simpl. lia.
    + right.
      replace (List.length used + List.length (i :: j :: p'))%nat
        with (List.length (i :: used) + List.length (j :: p'))%nat
        by (simpl; lia).
      apply IH; try assumption.
      * discriminate.
      * intros x Hx [<-|Hu]; [contradiction|].
        apply (Hnew x); [now right|exact Hu].
      * simpl in Hlen |- *. lia.
Qed.

(** An entry some hops away, within the depth, has a match that is no
    farther. *)
Lemma related_matches_complete g entry_id depth entry m :
  hops_to g entry_id entry m -> (m <= depth)%nat ->
  exists m',
    (1 <= m' <= m)%nat
    /\ In {| rel_entry := entry; distance := Z.of_nat m' |}
         (related_matches g entry_id depth).
Proof.
  intros (seed & related & seed_node & related_node & kb
          & Hseed & Hls & His & Hrel & Hlr & Hkb & Hroute & ->) Hm.
  apply route_walk in Hroute. destruct Hroute as (p & Hw & Hl & Hne).
  destruct (walk_trail g seed related _ p (le_n _) Hw Hne)
    as (p' & Hw' & Hd' & Hne' & Hlen').
  exists (List.length p'). split.
  - destruct p'; [congruence|simpl in *; lia].
  - unfold related_matches. apply in_flat_map. exists seed.
    split; [now apply (entries_with_id_complete _ _ _ seed_node)|].
    apply in_flat_map. exists (related, List.length p'). split.
    + apply (paths_from_complete g depth seed [] related p'); auto. lia.
    + cbn [fst snd]. rewrite Hrel, Hlr. apply in_map_iff. exists kb. auto.
Qed.

(** Rows in ascending order of distance, cut after some: a row nearer than
    one that is kept is kept. *)
Lemma firstn_nearest n (l : list RelatedRow) row row' :
  Sorted (PyList.in_order nearer) l ->
  In row (firstn n l) -> In row' l -> distance row' < distance row ->
  In row' (firstn n l).
Proof.
  intros Hs Hin Hin' Hlt.
  rewrite <- (firstn_skipn n l) in Hs, Hin'.
  apply in_app_or in Hin'. destruct Hin' as [Hin'|Hin']; [exact Hin'|].
  exfalso.
  assert (Htrans : Relations_1.Transitive (PyList.in_order nearer)).
  { intros x y z. unfold PyList.in_order, nearer.
    rewrite !Z.ltb_ge. lia. }
  apply (Sorted_StronglySorted Htrans) in Hs.
  revert Hs Hin Hin'. generalize (firstn n l) (skipn n l).
  intros l1 l2. induction l1 as [|x l1 IH]; intros Hs Hin Hin';
    [destruct Hin|].
  simpl in Hs. inversion Hs as [|? ? Hs' Hall]; subst.
  destruct Hin as [->|Hin]; [|now apply IH].
  rewrite Forall_forall in Hall.
  specialize (Hall row' (in_or_app _ _ _ (or_intror Hin'))).
  unfold PyList.in_order, nearer in Hall. apply Z.ltb_ge in Hall. lia.
Qed.

Lemma related_rows_nearest g entry_id depth row row' :
  In row (related_rows g entry_id depth) ->
  In row' (related_matches g entry_id depth) ->
  distance row' < distance row ->
  In row' (related_rows g entry_id depth).
Proof.
  unfold related_rows. intros Hin Hin' Hlt.
  apply (firstn_nearest _ _ row); try assumption.
  - apply PyListFacts.stable_sort_sorted. exact nearer_asym.
  - eapply Permutation_in; [apply PyListFacts.stable_sort_perm|].
    now apply nodup_In.
Qed.

(** Among the rows that show an entry, one is nearest. *)
Lemma nearest_row (rows : list RelatedRow) (entry : Entry) :
  (exists row, In row rows /\ rel_entry row = entry) ->
  exists best,
    In best rows /\ rel_entry best = entry
    /\ forall row, In row rows -> rel_entry row = entry ->
                   distance best <= distance row.
Proof.
  induction rows as [|x rows IH]; intros (row & Hin & Erow);
    [destruct Hin|].
  assert (Hcase : (exists y, In y rows /\ rel_entry y = entry)
                  \/ forall y, In y rows -> rel_entry y <> entry).
  { clear. induction rows as [|y rows IH].
    - right. intros y [].
    - destruct (Entry_eq_dec (rel_entry y) entry) as [E|E].
      + left. exists y. split; [now left|exact E].
      + destruct IH as [(z & Hz & Ez)|Hnone].
        * left. exists z. split; [now right|exact Ez].
        * right. intros z [<-|Hz]; [exact E|now apply Hnone]. }
  destruct Hcase as [Hsome|Hnone].
  - destruct (IH Hsome) as (best & Hbest & Ebest & Hmin).
    destruct (Entry_eq_dec (rel_entry x) entry) as [Ex|Ex].
    + destruct (Z_le_gt_dec (distance x) (distance best)) as [Hle|Hgt].
      * exists x. split; [now left|]. split; [exact Ex|].
        intros z [<-|Hz] Ez; [lia|]. specialize (Hmin z Hz Ez). lia.
      * exists best. split; [now right|]. split; [exact Ebest|].
        intros z [<-|Hz] Ez; [lia|]. now apply Hmin.
    + exists best. split; [now right|]. split; [exact Ebest|].
      intros z [<-|Hz] Ez; [congruence|]. now apply Hmin.
  - destruct Hin as [->|Hin]; [|exfalso; now apply (Hnone row)].
    exists row. split; [now left|]. split; [exact Erow|].
    intros z [<-|Hz] Ez; [lia|]. exfalso. now apply (Hnone z).
Qed.

Lemma reaches_hops_to g entry_id depth row :
  reaches g entry_id depth row ->
  exists n,
    (1 <= n <= depth)%nat /\ distance row = Z.of_nat n
    /\ hops_to g entry_id (rel_entry row) n.
Proof.
  intros (seed & related & n & seed_node & related_node & kb
          & H1 & H2 & H3 & H4 & H5 & H6 & H7 & H8 & ->).
  exists n. split; [exact H8|]. split; [reflexivity|].
  exists seed, related, seed_node, related_node, kb. simpl. auto 10.
Qed.

(** Every entry returned has a row no farther than any number of hops that
    lead to it. *)
Lemma related_rows_within g entry_id depth row m :
  In row (related_rows g entry_id depth) ->
  hops_to g entry_id (rel_entry row) m ->
  exists row',
    In row' (related_rows g entry_id depth)
    /\ rel_entry row' = rel_entry row /\ distance row' <= Z.of_nat m.
Proof.
  intros Hin Hhops.
  destruct (Z_le_gt_dec (distance row) (Z.of_nat m)) as [Hle|Hgt].
  { exists row. auto. }
  destruct (reaches_hops_to _ _ _ _
              (related_matches_reaches _ _ _ _ (related_rows_In _ _ _ _ Hin)))
    as (n & Hn & Hd & _).
  destruct (related_matches_complete g entry_id depth _ m Hhops)
    as (m' & Hm' & Hmatch); [lia|].
  eexists. split; [|split].
  - apply (related_rows_nearest _ _ _ row); [exact Hin|exact Hmatch|].
    simpl. lia.
  - reflexivity.
  - simpl. lia.
Qed.

End TraversalFacts.

(** C8, as the code has it: for a depth of at least 1 [get_related_entries]
    returns at most 5 rows, in ascending order of distance, no two of them
    the same row; each row holds an [Entry] reachable from an entry with
    the seed identifier and the length, between 1 and the depth, of a
    route to it.  The rows are the nearest: a match nearer than a row
    returned is returned too.  So every entry returned is returned with its
    shortest hop distance: one of its rows holds a number of hops that
    lead to it and that no route to it undercuts.  (It can have further
    rows, with the lengths of longer paths.)  At depth 1, in a store that
    meets the ingestion's constraints, no identifier occurs twice. *)
Theorem get_related_entries_rows :
  forall self entry_id depth t,
    1 <= depth ->
    exists rows,
      get_related_entries self entry_id depth t
      = (Returned rows, t ++ [Call_get_related_entries entry_id depth])
      /\ (List.length rows <= 5)%nat
      /\ ascending_distance rows
      /\ NoDup rows
      /\ (forall row, In row rows ->
            reaches (graph (driver self)) entry_id (Z.to_nat depth) row)
      /\ (forall row row',
            In row rows ->
            In row' (related_matches (graph (driver self)) entry_id
                       (Z.to_nat depth)) ->
            distance row' < distance row ->
            In row' rows)
      /\ (forall row, In row rows ->
            exists row' n,
              In row' rows /\ rel_entry row' = rel_entry row
              /\ distance row' = Z.of_nat n
              /\ hops_to (graph (driver self)) entry_id (rel_entry row) n
              /\ forall m,
                   hops_to (graph (driver self)) entry_id (rel_entry row) m ->
                   (n <= m)%nat)
      /\ (depth = 1 ->
          entry_ids_unique (graph (driver self)) = true ->
          one_knowledge_base (graph (driver self)) = true ->
          NoDup (ids rel_entry rows)).
Proof.
  intros self entry_id depth t Hd.
  rewrite get_related_entries_run by lia.
  eexists. split; [reflexivity|].
  assert (Hreach : forall row,
             In row (related_rows (graph (driver self)) entry_id (Z.to_nat depth)) ->
             reaches (graph (driver self)) entry_id (Z.to_nat depth) row).
  { intros row Hin.
    now apply TraversalFacts.related_matches_reaches, TraversalFacts.related_rows_In. }
  split; [|split; [|split; [|split; [|split; [|split]]]]].
  - unfold related_rows. rewrite length_firstn. lia.
  - apply TraversalFacts.related_rows_ascending.
  - apply TraversalFacts.related_rows_NoDup.
  - exact Hreach.
  - apply TraversalFacts.related_rows_nearest.
  - intros row Hin.
    destruct (TraversalFacts.nearest_row _ (rel_entry row)
                (ex_intro _ row (conj Hin eq_refl)))
      as (best & Hbest & Ebest & Hmin).
    destruct (TraversalFacts.reaches_hops_to _ _ _ _ (Hreach _ Hbest))
      as (n & _ & Hn & Hhops).
    exists best, n. rewrite <- Ebest. repeat split; try assumption.
    intros m Hm.
    destruct (TraversalFacts.related_rows_within _ _ _ best m Hbest Hm)
      as (row' & Hin' & E' & Hle).
    rewrite Ebest in E'. specialize (Hmin row' Hin' E'). lia.
  - intros -> Hu Ho. unfold ids.
    apply NoDup_map_NoDup_ForallPairs;
      [|apply TraversalFacts.related_rows_NoDup].
    intros a b Ha Hb Hid.
    pose proof (Hreach _ Ha) as Ra. pose proof (Hreach _ Hb) as Rb.
    apply (TraversalFacts.reaches_same_id _ _ _ _ _ Hu Ho Ra Rb Hid).
    destruct Ra as (? & ? & na & ? & ? & ? & _ & _ & _ & _ & _ & _ & _ & Hna & ->).
    destruct Rb as (? & ? & nb & ? & ? & ? & _ & _ & _ & _ & _ & _ & _ & Hnb & ->).
    simpl in *. lia.
Qed.

(** The neighbours of Lion in the example; and Lion's rows at depth 2,
    where Hyena has two and the row at distance 1 is the one no route
    undercuts. *)
Lemma get_related_entries_rows_witness :
  (exists rows,
      get_related_entries animals_rag "Animals:Entry:Lion" 1 []
      = (Returned rows, [Call_get_related_entries "Animals:Entry:Lion" 1])
      /\ ids rel_entry rows
         = ["Animals:Entry:Hyena"; "Animals:Entry:Leopard"]%string
      /\ NoDup (ids rel_entry rows))
  /\ (exists rows,
        get_related_entries animals_rag "Animals:Entry:Lion" 2 []
        = (Returned rows, [Call_get_related_entries "Animals:Entry:Lion" 2])
        /\ map (fun row : RelatedRow => (title row, distance row)) rows
           = [("Hyena", 1); ("Leopard", 1); ("Hyena", 2)]%string
        /\ forall row, In row rows ->
             exists row' n,
               In row' rows /\ rel_entry row' = rel_entry row
               /\ distance row' = Z.of_nat n
               /\ forall m,
                    hops_to animals_graph "Animals:Entry:Lion" (rel_entry row) m ->
                    (n <= m)%nat).
Proof.
  split.
  - destruct (get_related_entries_rows animals_rag "Animals:Entry:Lion" 1 []
                ltac:(lia))
      as (rows & Hrun & _ & _ & _ & _ & _ & _ & Hids).
    exists rows. split; [exact Hrun|]. split.
    + injection Hrun as <-. reflexivity.
    + apply Hids; reflexivity.
  - destruct (get_related_entries_rows animals_rag "Animals:Entry:Lion" 2 []
                ltac:(lia))
      as (rows & Hrun & _ & _ & _ & _ & _ & Hshort & _).
    exists rows. split; [exact Hrun|]. split.
    + injection Hrun as <-. reflexivity.
    + intros row Hin.
      destruct (Hshort row Hin) as (row' & n & H1 & H2 & H3 & _ & H5).
      exists row', n. auto.
Defined.

(** C8 as stated fails at depth 2: Hyena is one hop from Lion and also two
    hops (by way of Leopard), and has a row for each length. *)
Lemma get_related_entries_rows_counterexample :
  exists rows t',
    get_related_entries animals_rag "Animals:Entry:Lion" 2 [] = (Returned rows, t')
    /\ map (fun row : RelatedRow => (title row, distance row)) rows
       = [("Hyena", 1); ("Leopard", 1); ("Hyena", 2)]%string
    /\ ~ NoDup (ids rel_entry rows).
Proof.
  eexists. eexists. split; [reflexivity|]. split; [reflexivity|].
  vm_compute. intros H. inversion H as [|x l Hnot _]. apply Hnot.
  right. left. reflexivity.
Qed.

(** * Further properties *)

(** ** Fusion: what is kept and how much *)

Module FusionMore.

Import PyDict PyDictFacts FusionFacts.

Lemma length_add_key ks k :
  (List.length (add_key ks k) <= S (List.length ks))%nat.
Proof.
  unfold add_key. destruct (existsb (String.eqb k) ks); [lia|].
  rewrite length_app. simpl. lia.
Qed.

Lemma length_fold_add_key l ks :
  (List.length (fold_left add_key l ks) <= List.length ks + List.length l)%nat.
Proof.
  revert ks. induction l as [|k l IH]; intros ks; simpl; [lia|].
  specialize (IH (add_key ks k)). pose proof (length_add_key ks k). lia.
Qed.

Lemma length_scored_hits s k r :
  List.length (scored_hits s k r)
  = List.length
      (first_occurrences (ids sem_entry s ++ ids kw_entry k ++ ids rel_entry r)).
Proof.
  destruct (merged_all_results s k r) as [Hk _].
  rewrite <- Hk. unfold scored_hits, values, keys. now rewrite !length_map.
Qed.

Lemma length_scored_hits_le s k r :
  (List.length (scored_hits s k r)
   <= List.length s + List.length k + List.length r)%nat.
Proof.
  rewrite length_scored_hits. unfold first_occurrences.
  pose proof (length_fold_add_key
                (ids sem_entry s ++ ids kw_entry k ++ ids rel_entry r) []) as H.
  unfold ids in *. rewrite !length_app, !length_map in H. simpl in H. lia.
Qed.

Lemma slice_to_all {A : Type} (l : list A) (top_k : Z) :
  Z.of_nat (List.length l) <= top_k -> PyList.slice_to l top_k = l.
Proof.
  intros H. unfold PyList.slice_to.
  destruct (top_k <? 0) eqn:E; [apply Z.ltb_lt in E; lia|].
  apply firstn_all2. lia.
Qed.

Lemma In_hit_ids (hits : list ScoredHit) h : In h hits -> In (id h) (hit_ids hits).
Proof. intros H. unfold hit_ids. apply in_map_iff. eauto. Qed.

End FusionMore.

(** X1: the fusion invents no entity and loses one only by the cut: every
    returned hit carries an identifier some channel returned, and once
    [top_k] is at least the number of distinct identifiers the returned
    list is a rearrangement of all merged hits, so every identifier of
    every channel is returned. *)
Theorem fuse_and_rank_keeps_all :
  forall s k r top_k,
    (forall h, In h (fuse_and_rank s k r top_k) ->
               In (id h) (ids sem_entry s ++ ids kw_entry k ++ ids rel_entry r))
    /\ (Z.of_nat
          (List.length
             (first_occurrences
                (ids sem_entry s ++ ids kw_entry k ++ ids rel_entry r)))
        <= top_k ->
        Permutation (scored_hits s k r) (fuse_and_rank s k r top_k)
        /\ forall i,
             In i (ids sem_entry s ++ ids kw_entry k ++ ids rel_entry r) ->
             In i (hit_ids (fuse_and_rank s k r top_k))).
Proof.
  intros s k r top_k.
  assert (Hids : hit_ids (scored_hits s k r)
                 = first_occurrences
                     (ids sem_entry s ++ ids kw_entry k ++ ids rel_entry r)).
  { rewrite FusionFacts.hit_ids_scored_hits.
    now destruct (FusionFacts.merged_all_results s k r) as [-> _]. }
  split.
  - intros h Hin. apply FusionFacts.fuse_and_rank_In in Hin.
    apply FusionMore.In_hit_ids in Hin. rewrite Hids in Hin.
    now apply FusionFacts.In_first_occurrences.
  - intros Hk.
    assert (Hperm : Permutation (scored_hits s k r) (fuse_and_rank s k r top_k)).
    { unfold fuse_and_rank, sorted_results. fold (scored_hits s k r).
      rewrite FusionMore.slice_to_all.
      - apply FusionFacts.sorted_by_combined_score_perm.
      - rewrite <- (Permutation_length
                      (FusionFacts.sorted_by_combined_score_perm
                         (scored_hits s k r))).
        now rewrite FusionMore.length_scored_hits. }
    split; [exact Hperm|].
    intros i Hi. apply FusionFacts.In_first_occurrences in Hi.
    rewrite <- Hids in Hi. unfold hit_ids in *.
    eapply Permutation_in; [apply Permutation_map, Hperm|exact Hi].
Qed.

(** The example with room for all three of its hits. *)
Lemma fuse_and_rank_keeps_all_witness :
  let s := semantic_rows animals_rag lions_question 20 in
  let k := keyword_rows animals_rag lions_question 5 in
  let r := related_channel animals_rag s in
  Permutation (scored_hits s k r) (fuse_and_rank s k r 3).
Proof.
  intros s k r.
  apply (proj2 (fuse_and_rank_keeps_all s k r 3)). vm_compute. discriminate.
Defined.

(** X2: a run of [hybrid_search] returns at most as many hits as the
    semantic channel had rows plus ten: the keyword channel is limited to 5
    rows and the relational one to 5. *)
Theorem hybrid_search_size :
  forall self q top_k t hits t',
    hybrid_search self q top_k t = (Returned hits, t') ->
    (List.length hits <= List.length (semantic_rows self q 20) + 10)%nat.
Proof.
  intros self q top_k t hits t' Hrun.
  apply RunFacts.hybrid_search_returned in Hrun.
  destruct Hrun as (_ & _ & -> & _).
  destruct (FusionFacts.fuse_and_rank_firstn
              (semantic_rows self q 20) (keyword_rows self q 5)
              (related_channel self (semantic_rows self q 20)) top_k) as [n ->].
  rewrite length_firstn.
  rewrite <- (Permutation_length
                (FusionFacts.sorted_by_combined_score_perm _)).
  pose proof (FusionMore.length_scored_hits_le
                (semantic_rows self q 20) (keyword_rows self q 5)
                (related_channel self (semantic_rows self q 20))) as Hle.
  assert (Hk : (List.length (keyword_rows self q 5) <= 5)%nat).
  { unfold keyword_rows. rewrite length_firstn.
    change (Z.to_nat 5) with 5%nat. lia. }
  assert (Hr : (List.length (related_channel self (semantic_rows self q 20))
                <= 5)%nat).
  { unfold related_channel. destruct (semantic_rows self q 20); simpl; [lia|].
    unfold related_rows. rewrite length_firstn. lia. }
  lia.
Qed.

(** The example: one semantic row, three hits. *)
Lemma hybrid_search_size_witness :
  (3 <= 1 + 10)%nat.
Proof.
  exact (hybrid_search_size animals_rag lions_question 10 [] _ _ eq_refl).
Defined.

Lemma last_value_present {R : Type} (ident : R -> string) (val : R -> float)
    rows i :
  In i (map ident rows) ->
  exists row, In row rows /\ ident row = i
              /\ last_value ident val rows i = val row.
Proof.
  induction rows as [|row rows IH] using rev_ind; [intros []|].
  intros Hin. rewrite FusionFacts.last_value_snoc.
  destruct (String.eqb (ident row) i) eqn:E.
  - apply String.eqb_eq in E. exists row.
    split; [apply in_or_app; right; now left|auto].
  - rewrite map_app, in_app_iff in Hin. simpl in Hin.
    destruct Hin as [Hin|[Hin|[]]].
    + destruct (IH Hin) as (row' & Hrow' & Hid & Hval).
      exists row'. split; [apply in_or_app; now left|auto].
    + rewrite Hin, String.eqb_refl in E. discriminate.
Qed.

Lemma related_channel_distance self s row :
  In row (related_channel self s) -> distance row = 1.
Proof.
  unfold related_channel. destruct s as [|top rest]; [intros []|].
  intros Hin.
  apply TraversalFacts.related_rows_In, TraversalFacts.related_matches_reaches in Hin.
  destruct Hin as (? & ? & n & ? & ? & ? & _ & _ & _ & _ & _ & _ & _ & Hn & ->).
  simpl. lia.
Qed.

(** X3: in [hybrid_search] the relational channel is asked for depth 1, so
    every row it returns is at distance 1: the related score of a returned
    hit is [1.0] when that channel has a row for it and [0] otherwise, and
    the branch for distance 0 is never taken. *)
Theorem hybrid_search_related_score :
  forall self q top_k t hits t',
    hybrid_search self q top_k t = (Returned hits, t') ->
    let r := related_channel self (semantic_rows self q 20) in
    (forall row, In row r -> distance row = 1)
    /\ forall h : ScoredHit, In h hits ->
         (In (id h) (ids rel_entry r) -> related_score h = 1%float)
         /\ (~ In (id h) (ids rel_entry r) -> related_score h = 0%float).
Proof.
  intros self q top_k t hits t' Hrun r.
  split; [apply related_channel_distance|].
  intros h Hin.
  apply RunFacts.hybrid_search_returned in Hrun.
  destruct Hrun as (_ & _ & -> & _).
  apply FusionFacts.fuse_and_rank_In in Hin.
  destruct (scored_hit_scores _ _ _ _ Hin) as (_ & _ & _ & ->).
  fold r. unfold related_of. split.
  - intros Hrow.
    destruct (last_value_present (fun row : RelatedRow => id row)
                (fun row => related_score_of (distance row)) r (id h) Hrow)
      as (row & Hr & _ & ->).
    now rewrite (related_channel_distance _ _ _ Hr).
  - intros Hnone. now apply FusionFacts.last_value_absent.
Qed.

(** The hits the example returns: Lion, which the relational channel does
    not list, then Hyena and Leopard, which it does. *)
Lemma hybrid_search_related_score_witness :
  exists hits t',
    hybrid_search animals_rag lions_question 10 [] = (Returned hits, t')
    /\ map (fun h : ScoredHit => (title h, related_score h)) hits
       = [("Lion", 0); ("Hyena", 1); ("Leopard", 1)]%string%float.
Proof.
  eexists. eexists. split; [vm_compute; reflexivity|].
  match goal with
  | |- map _ ?hits = _ =>
      destruct (hybrid_search_related_score animals_rag lions_question 10 []
                  hits _ eq_refl) as [_ Hscore]
  end.
  destruct (Hscore _ (or_introl eq_refl)) as [_ Hlion].
  destruct (Hscore _ (or_intror (or_introl eq_refl))) as [Hhyena _].
  destruct (Hscore _ (or_intror (or_intror (or_introl eq_refl))))
    as [Hleopard _].
  cbn [map]. rewrite Hlion, Hhyena, Hleopard.
  - reflexivity.
  - vm_compute. auto.
  - vm_compute. auto.
  - vm_compute. intros [H|[H|[]]]; discriminate H.
Defined.

(** ** Fusion: whose columns a hit shows *)

Module ColumnsFacts.

Import PyDict PyDictFacts FusionFacts.

Lemma last_row_snoc {R : Type} (ident : R -> string) rows x i :
  last_row ident (rows ++ [x]) i =
  if String.eqb (ident x) i then Some x else last_row ident rows i.
Proof. unfold last_row. now rewrite fold_left_app. Qed.

Lemma last_row_absent {R : Type} (ident : R -> string) rows i :
  ~ In i (map ident rows) -> last_row ident rows i = None.
Proof.
  induction rows as [|x rows IH] using rev_ind; intros Hn; [reflexivity|].
  rewrite last_row_snoc. rewrite map_app, in_app_iff in Hn. simpl in Hn.
  destruct (String.eqb (ident x) i) eqn:E.
  - apply String.eqb_eq in E. tauto.
  - apply IH. tauto.
Qed.

Lemma first_row_snoc {R : Type} (ident : R -> string) rows x i :
  first_row ident (rows ++ [x]) i =
  match first_row ident rows i with
  | Some row => Some row
  | None => if String.eqb (ident x) i then Some x else None
  end.
Proof.
  unfold first_row. induction rows as [|y rows IH]; simpl.
  - reflexivity.
  - destruct (String.eqb (ident y) i); [reflexivity|exact IH].
Qed.

Lemma first_row_absent {R : Type} (ident : R -> string) rows i :
  ~ In i (map ident rows) -> first_row ident rows i = None.
Proof.
  unfold first_row. induction rows as [|y rows IH]; intros Hn; [reflexivity|].
  simpl in *. destruct (String.eqb (ident y) i) eqn:E.
  - apply String.eqb_eq in E. tauto.
  - apply IH. tauto.
Qed.

Lemma first_row_present {R : Type} (ident : R -> string) rows i :
  In i (map ident rows) -> exists row, first_row ident rows i = Some row.
Proof.
  unfold first_row. induction rows as [|y rows IH]; intros Hin; [destruct Hin|].
  simpl in *. destruct (String.eqb (ident y) i) eqn:E; [eauto|].
  apply IH. destruct Hin as [H|H]; [|assumption].
  apply String.eqb_neq in E. congruence.
Qed.

Lemma columns_semantic s d x :
  merged s [] [] d -> columns_agree s [] [] d ->
  columns_agree (s ++ [x]) [] [] (merge_semantic d x).
Proof.
  intros Hm Hc key h Hin. pose proof (merged_NoDup _ _ _ _ Hm) as Hd.
  unfold merge_semantic in Hin. apply In_set in Hin; [|assumption].
  unfold shown_row. rewrite last_row_snoc.
  destruct Hin as [[-> ->]|[Hne Hin]].
  - now rewrite String.eqb_refl.
  - other_key Hne. apply (Hc _ _ Hin).
Qed.

Lemma columns_keyword s k d x :
  merged s k [] d -> columns_agree s k [] d ->
  columns_agree s (k ++ [x]) [] (merge_keyword d x).
Proof.
  intros Hm Hc key h Hin. pose proof (merged_NoDup _ _ _ _ Hm) as Hd.
  pose proof (merged_absent _ _ _ _ (id x) Hm) as Hab.
  assert (Hold : forall key0 h0, In (key0, h0) d ->
                   shown_row s (k ++ [x]) [] key0 = Some (result h0)).
  { intros key0 h0 Hin0. specialize (Hc _ _ Hin0).
    unfold shown_row in *. rewrite first_row_snoc.
    destruct (last_row (fun x0 : SemanticRow => id x0) s key0); [assumption|].
    destruct (first_row (fun x0 : KeywordRow => id x0) k key0); [assumption|].
    simpl in Hc. discriminate. }
  unfold merge_keyword in Hin. destruct (mem (id x) d) eqn:E.
  - apply In_update in Hin; [|assumption].
    destruct Hin as [(-> & v0 & Hv0 & ->)|[Hne Hin]].
    + simpl. now apply Hold.
    + now apply Hold.
  - apply In_set in Hin; [|assumption].
    destruct Hin as [[-> ->]|[Hne Hin]]; [|now apply Hold].
    destruct (Hab eq_refl) as (Hns & Hnk & _).
    unfold shown_row. rewrite first_row_snoc.
    rewrite (last_row_absent _ s) by exact Hns.
    rewrite (first_row_absent _ k) by exact Hnk.
    now rewrite String.eqb_refl.
Qed.

Lemma columns_related s k r d x :
  merged s k r d -> columns_agree s k r d ->
  columns_agree s k (r ++ [x]) (merge_related d x).
Proof.
  intros Hm Hc key h Hin. pose proof (merged_NoDup _ _ _ _ Hm) as Hd.
  pose proof (merged_absent _ _ _ _ (id x) Hm) as Hab.
  assert (Hold : forall key0 h0, In (key0, h0) d ->
                   shown_row s k (r ++ [x]) key0 = Some (result h0)).
  { intros key0 h0 Hin0. specialize (Hc _ _ Hin0).
    unfold shown_row in *. rewrite first_row_snoc.
    destruct (last_row (fun x0 : SemanticRow => id x0) s key0); [assumption|].
    destruct (first_row (fun x0 : KeywordRow => id x0) k key0); [assumption|].
    destruct (first_row (fun x0 : RelatedRow => id x0) r key0); [assumption|].
    discriminate. }
  unfold merge_related in Hin. destruct (mem (id x) d) eqn:E.
  - apply In_update in Hin; [|assumption].
    destruct Hin as [(-> & v0 & Hv0 & ->)|[Hne Hin]].
    + simpl. now apply Hold.
    + now apply Hold.
  - apply In_set in Hin; [|assumption].
    destruct Hin as [[-> ->]|[Hne Hin]]; [|now apply Hold].
    destruct (Hab eq_refl) as (Hns & Hnk & Hnr).
    unfold shown_row. rewrite first_row_snoc.
    rewrite (last_row_absent _ s) by exact Hns.
    rewrite (first_row_absent _ k) by exact Hnk.
    rewrite (first_row_absent _ r) by exact Hnr.
    now rewrite String.eqb_refl.
Qed.

Lemma columns_fold_semantic l s d :
  merged s [] [] d -> columns_agree s [] [] d ->
  columns_agree (s ++ l) [] [] (fold_left merge_semantic l d).
Proof.
  revert s d. induction l as [|x l IH]; intros s d Hm Hc; simpl.
  - now rewrite app_nil_r.
  - replace (s ++ x :: l) with ((s ++ [x]) ++ l) by now rewrite <- app_assoc.
    apply IH; [now apply merged_semantic|now apply columns_semantic].
Qed.

Lemma columns_fold_keyword l s k d :
  merged s k [] d -> columns_agree s k [] d ->
  columns_agree s (k ++ l) [] (fold_left merge_keyword l d).
Proof.
  revert k d. induction l as [|x l IH]; intros k d Hm Hc; simpl.
  - now rewrite app_nil_r.
  - replace (k ++ x :: l) with ((k ++ [x]) ++ l) by now rewrite <- app_assoc.
    apply IH; [now apply merged_keyword|now apply columns_keyword].
Qed.

Lemma columns_fold_related l s k r d :
  merged s k r d -> columns_agree s k r d ->
  columns_agree s k (r ++ l) (fold_left merge_related l d).
Proof.
  revert r d. induction l as [|x l IH]; intros r d Hm Hc; simpl.
  - now rewrite app_nil_r.
  - replace (r ++ x :: l) with ((r ++ [x]) ++ l) by now rewrite <- app_assoc.
    apply IH; [now apply merged_related|now apply columns_related].
Qed.

Lemma columns_all_results s k r : columns_agree s k r (all_results s k r).
Proof.
  unfold all_results.
  assert (H0 : merged [] [] [] ([] : PyDict.t Hit))
    by (split; [reflexivity|intros ? ? []]).
  assert (C0 : columns_agree [] [] [] ([] : PyDict.t Hit)) by (intros ? ? []).
  pose proof (merged_fold_semantic s [] [] H0) as H1.
  pose proof (columns_fold_semantic s [] [] H0 C0) as C1.
  pose proof (merged_fold_keyword k _ [] _ H1) as H2.
  pose proof (columns_fold_keyword k _ [] _ H1 C1) as C2.
  exact (columns_fold_related r _ _ [] _ H2 C2).
Qed.

End ColumnsFacts.

(** X4: when several rows name one entity, the returned hit shows the
    columns of the last semantic row for it (each semantic row replaces the
    record); without a semantic row, those of the first keyword row; without
    either, those of the first relational row (later keyword and relational
    rows only set their score). *)
Theorem fuse_and_rank_columns :
  forall s k r top_k h,
    In h (fuse_and_rank s k r top_k) ->
    shown_row s k r (id h) = Some (result h).
Proof.
  intros s k r top_k h Hin.
  apply FusionFacts.fuse_and_rank_In, FusionFacts.scored_hits_In in Hin.
  destruct Hin as (v & Hin & ->).
  exact (ColumnsFacts.columns_all_results s k r _ _ Hin).
Qed.

(** Two semantic rows and a keyword row for one identifier: the second
    semantic row is shown. *)
Lemma fuse_and_rank_columns_witness :
  let e1 := mkEntry "a" "first" "" "" "KB1" in
  let e2 := mkEntry "a" "second" "" "" "KB2" in
  let e3 := mkEntry "a" "third" "" "" "KB3" in
  exists h,
    fuse_and_rank [mkSemanticRow e1 0.5; mkSemanticRow e2 0.25]
      [mkKeywordRow e3 1] [] 5 = [h]
    /\ Some (result h) = Some (FromSemantic (mkSemanticRow e2 0.25)).
Proof.
  intros e1 e2 e3. eexists. split; [reflexivity|].
  rewrite <- (fuse_and_rank_columns
                [mkSemanticRow e1 0.5; mkSemanticRow e2 0.25]
                [mkKeywordRow e3 1] [] 5 _ (or_introl eq_refl)).
  reflexivity.
Defined.

(** ** The context and the budget *)

Module ContextMore.

Lemma append_empty_r (s : string) : (s ++ "")%string = s.
Proof. induction s as [|c s IH]; simpl; [reflexivity|now rewrite IH]. Qed.

Lemma append_assoc (a b c : string) :
  ((a ++ b) ++ c)%string = (a ++ (b ++ c))%string.
Proof. induction a as [|x a IH]; simpl; [reflexivity|now rewrite IH]. Qed.

Lemma concat_cons (p : string) (parts : list string) :
  String.concat "" (p :: parts) = (p ++ String.concat "" parts)%string.
Proof.
  destruct parts as [|q parts]; simpl; [now rewrite append_empty_r|reflexivity].
Qed.

Lemma concat_app (l1 l2 : list string) :
  String.concat "" (l1 ++ l2)
  = (String.concat "" l1 ++ String.concat "" l2)%string.
Proof.
  induction l1 as [|p l1 IH]; [reflexivity|].
  rewrite <- app_comm_cons, !concat_cons, IH. now rewrite append_assoc.
Qed.

Lemma len_nonneg (s : string) : 0 <= len s.
Proof. unfold len. lia. Qed.

Lemma total_length_nonneg (parts : list string) : 0 <= total_length parts.
Proof.
  induction parts as [|p parts IH]; simpl; [lia|].
  change (total_length (p :: parts)) with (len p + total_length parts).
  pose proof (len_nonneg p). lia.
Qed.

(** A larger budget keeps what a smaller one kept. *)
Lemma context_parts_grow entries :
  forall i current_length m1 m2,
    m1 <= m2 ->
    exists more,
      context_parts i entries current_length m2
      = context_parts i entries current_length m1 ++ more.
Proof.
  induction entries as [|entry rest IH]; intros i cur m1 m2 Hm; simpl.
  - exists []. reflexivity.
  - destruct (cur + len (source_part i entry) >? m1) eqn:E1.
    + eexists. reflexivity.
    + rewrite Z.gtb_ltb in E1. apply Z.ltb_ge in E1.
      destruct (cur + len (source_part i entry) >? m2) eqn:E2.
      * apply Z.gtb_lt in E2. lia.
      * destruct (IH (S i) (cur + len (source_part i entry)) m1 m2 Hm)
          as [more ->].
        exists more. reflexivity.
Qed.

(** When everything fits, everything is kept. *)
Lemma context_parts_all entries :
  forall i current_length max_length,
    current_length + total_length (source_parts i entries) <= max_length ->
    context_parts i entries current_length max_length = source_parts i entries.
Proof.
  induction entries as [|entry rest IH]; intros i cur mx Hfit; [reflexivity|].
  cbn [context_parts source_parts] in *.
  change (total_length (source_part i entry :: source_parts (S i) rest))
    with (len (source_part i entry) + total_length (source_parts (S i) rest))
    in Hfit.
  pose proof (total_length_nonneg (source_parts (S i) rest)).
  destruct (cur + len (source_part i entry) >? mx) eqn:E.
  - apply Z.gtb_lt in E. lia.
  - rewrite IH; [reflexivity|lia].
Qed.

Lemma build_context_bound entries max_length :
  0 <= max_length -> len (build_context entries max_length) <= max_length.
Proof.
  intros Hmx.
  destruct (ContextFacts.context_parts_prefix entries 1 0 max_length)
    as (n & Hparts & Hfit & _).
  unfold build_context. rewrite Hparts, ContextFacts.len_concat.
  destruct Hfit as [->|Hfit]; [simpl|]; lia.
Qed.

End ContextMore.

(** X5: the context for a smaller budget is a prefix of the context for a
    larger one: raising [max_length] only appends blocks. *)
Theorem build_context_grows :
  forall entries m1 m2,
    m1 <= m2 ->
    exists more,
      build_context entries m2 = (build_context entries m1 ++ more)%string.
Proof.
  intros entries m1 m2 Hm.
  destruct (ContextMore.context_parts_grow entries 1 0 m1 m2 Hm) as [more Hmore].
  exists (String.concat "" more).
  unfold build_context. now rewrite Hmore, ContextMore.concat_app.
Qed.

(** The example under budgets of 100 and 200 characters: one block, then
    two. *)
Lemma build_context_grows_witness :
  let hits :=
    fuse_and_rank (semantic_rows animals_rag lions_question 20)
      (keyword_rows animals_rag lions_question 5)
      (related_channel animals_rag (semantic_rows animals_rag lions_question 20))
      10 in
  exists more,
    build_context hits 200 = (build_context hits 100 ++ more)%string.
Proof.
  intros hits. apply (build_context_grows hits 100 200). lia.
Defined.

(** X6: when the blocks of all entries together are within the budget the
    context is all of them, in rank order, and its length is their summed
    length. *)
Theorem build_context_everything :
  forall entries max_length,
    total_length (source_parts 1 entries) <= max_length ->
    build_context entries max_length
    = String.concat "" (source_parts 1 entries)
    /\ len (build_context entries max_length)
       = total_length (source_parts 1 entries).
Proof.
  intros entries mx Hfit.
  assert (H : build_context entries mx = String.concat "" (source_parts 1 entries)).
  { unfold build_context. now rewrite ContextMore.context_parts_all. }
  split; [exact H|]. rewrite H. apply ContextFacts.len_concat.
Qed.

(** The example within the default budget. *)
Lemma build_context_everything_witness :
  let hits :=
    fuse_and_rank (semantic_rows animals_rag lions_question 20)
      (keyword_rows animals_rag lions_question 5)
      (related_channel animals_rag (semantic_rows animals_rag lions_question 20))
      10 in
  len (build_context hits 4000) = total_length (source_parts 1 hits).
Proof.
  intros hits. apply (build_context_everything hits 4000).
  vm_compute. discriminate.
Defined.

(** ** [query]: the pipeline as a whole *)

Module QueryMore.

Import RunFacts.

(** A run of [query] in full: how it ends and the calls it makes. *)
Lemma query_full_run self q t :
  let s := semantic_rows self q 20 in
  let hits :=
    fuse_and_rank s (keyword_rows self q 5) (related_channel self s) 5 in
  let retrieval :=
    [Call_semantic_search q 20; Call_keyword_search q 5]
      ++ map (fun a => Call_get_related_entries (fst a) (snd a))
           (match s with [] => [] | top :: _ => [(id top, 1)] end) in
  query self q t =
  match search_error (driver self) (VectorSearch q 20),
        search_error (driver self) (FulltextSearch q 5) with
  | Some e, _ => (Raised e, t ++ [Call_semantic_search q 20])
  | None, Some e =>
      (Raised e, t ++ [Call_semantic_search q 20; Call_keyword_search q 5])
  | None, None =>
      match hits with
      | [] =>
          (Returned {| answer := not_found_answer; sources := [];
                       result_context := None |},
           t ++ retrieval)
      | _ :: _ =>
          let context := build_context hits 4000 in
          (match fst (generate_answer_ollama self q context []) with
           | Returned a =>
               Returned {| answer := a;
                           sources := map source_of hits;
                           result_context := Some context |}
           | Raised e => Raised e
           end,
           t ++ retrieval
             ++ [Call_build_context hits 4000;
                 Call_generate_answer_ollama q context;
                 Call_requests_post (generate_url self)
                   (payload_of self q context) 120])
      end
  end.
Proof.
  intros s hits retrieval.
  destruct (search_error (driver self) (VectorSearch q 20)) as [e|] eqn:Es.
  { unfold query, bind. now rewrite hybrid_search_run, Es. }
  destruct (search_error (driver self) (FulltextSearch q 5)) as [e|] eqn:Ek.
  { unfold query, bind. now rewrite hybrid_search_run, Es, Ek. }
  rewrite (query_run self q t hits (t ++ retrieval)
             (hybrid_search_answered self q 5 t Es Ek)).
  destruct hits as [|h hits']; [reflexivity|].
  cbv zeta. rewrite !generate_answer_ollama_run. cbn [fst].
  rewrite <- !app_assoc.
  destruct (requests_post self _ _ 120) as [response|c msg]; [|reflexivity].
  destruct ((400 <=? status_code response) && (status_code response <? 600))%bool;
    [reflexivity|].
  destruct (json_body response) as [msg|[members|type_name]]; reflexivity.
Qed.

End QueryMore.

(** X7: a run of [query] makes at most one HTTP request, however it ends,
    and never repeats it.  When it returns: none on the short path (no
    context is returned), and otherwise exactly one, the last call of the
    run, posted with [timeout=120] and carrying in its prompt the very
    context the result returns. *)
Theorem query_posts_once :
  forall self q t,
    exists calls,
      snd (query self q t) = t ++ calls
      /\ (List.length (filter is_post_call calls) <= 1)%nat
      /\ forall res,
           fst (query self q t) = Returned res ->
           match result_context res with
           | None => filter is_post_call calls = []
           | Some context =>
               filter is_post_call calls
               = [Call_requests_post (generate_url self)
                    (payload_of self q context) 120]
               /\ exists before,
                    calls = before
                              ++ [Call_requests_post (generate_url self)
                                    (payload_of self q context) 120]
           end.
Proof.
  intros self q t. rewrite QueryMore.query_full_run. cbv zeta.
  destruct (search_error (driver self) (VectorSearch q 20)) as [e|].
  { eexists. split; [reflexivity|]. split; [simpl; lia|]. discriminate. }
  destruct (search_error (driver self) (FulltextSearch q 5)) as [e|].
  { eexists. split; [reflexivity|]. split; [simpl; lia|]. discriminate. }
  assert (Hnone :
            filter is_post_call
              ([Call_semantic_search q 20; Call_keyword_search q 5]
                 ++ map (fun a => Call_get_related_entries (fst a) (snd a))
                      (match semantic_rows self q 20 with
                       | [] => []
                       | top :: _ => [(id top, 1)]
                       end)) = []).
  { destruct (semantic_rows self q 20); reflexivity. }
  destruct (fuse_and_rank (semantic_rows self q 20) (keyword_rows self q 5)
              (related_channel self (semantic_rows self q 20)) 5)
    as [|h hits] eqn:Eh.
  - eexists. split; [reflexivity|]. cbn [fst]. rewrite Hnone.
    split; [simpl; lia|]. now intros res [= <-].
  - eexists. split; [reflexivity|]. cbn [fst].
    rewrite filter_app, Hnone. cbn [filter is_post_call app].
    split; [simpl; lia|].
    intros res Hres.
    destruct (fst (generate_answer_ollama self q
                     (build_context (h :: hits) 4000) [])) as [a|e];
      [|discriminate].
    injection Hres as <-. cbn [result_context].
    split; [reflexivity|].
    exists (([Call_semantic_search q 20; Call_keyword_search q 5]
              ++ map (fun a => Call_get_related_entries (fst a) (snd a))
                   (match semantic_rows self q 20 with
                    | [] => []
                    | top :: _ => [(id top, 1)]
                    end))
             ++ [Call_build_context (h :: hits) 4000;
                 Call_generate_answer_ollama q
                   (build_context (h :: hits) 4000)]).
    rewrite <- !app_assoc. reflexivity.
Qed.

(** The example, whose request times out; and the object whose keyword
    search raises, which makes no request. *)
Lemma query_posts_once_witness :
  (exists calls,
      snd (query animals_rag lions_question []) = calls
      /\ List.length (filter is_post_call calls) = 1%nat)
  /\ (exists calls,
        snd (query unparsed_rag lions_question []) = calls
        /\ filter is_post_call calls = []).
Proof.
  split.
  - destruct (query_posts_once animals_rag lions_question [])
      as (calls & Hcalls & _ & Hres).
    exists calls. split; [exact Hcalls|].
    vm_compute in Hcalls. subst calls. reflexivity.
  - destruct (query_posts_once unparsed_rag lions_question [])
      as (calls & Hcalls & _ & _).
    exists calls. split; [exact Hcalls|].
    vm_compute in Hcalls. subst calls. reflexivity.
Defined.

(** X8: whatever [query] returns has at most 5 sources, one per fused hit,
    and a context of at most 4000 characters; the context is absent exactly
    when there is no source, and then the answer is the fixed text. *)
Theorem query_result_bounds :
  forall self q t res t',
    query self q t = (Returned res, t') ->
    (List.length (sources res) <= 5)%nat
    /\ (forall context, result_context res = Some context -> len context <= 4000)
    /\ (result_context res = None <-> sources res = [])
    /\ (sources res = [] -> answer res = not_found_answer).
Proof.
  intros self q t res t' Hq.
  pose proof (QueryMore.query_full_run self q t) as Hrun. cbv zeta in Hrun.
  rewrite Hq in Hrun.
  destruct (search_error (driver self) (VectorSearch q 20)); [discriminate|].
  destruct (search_error (driver self) (FulltextSearch q 5)); [discriminate|].
  assert (Hlen : Z.of_nat
                   (List.length
                      (fuse_and_rank (semantic_rows self q 20)
                         (keyword_rows self q 5)
                         (related_channel self (semantic_rows self q 20)) 5))
                 <= 5)
    by (apply PyListFacts.slice_to_length; lia).
  destruct (fuse_and_rank (semantic_rows self q 20) (keyword_rows self q 5)
              (related_channel self (semantic_rows self q 20)) 5)
    as [|h hits].
  - injection Hrun as -> _. simpl. repeat split; try lia; try discriminate; auto.
  - destruct (fst (generate_answer_ollama self q _ [])) as [a|e];
      [|discriminate].
    injection Hrun as -> _. cbn [sources result_context answer].
    cbn [List.length] in *. rewrite length_map.
    repeat split; try lia; try discriminate.
    intros context [= <-]. apply ContextMore.build_context_bound. lia.
Qed.

(** The example. *)
Lemma query_result_bounds_witness :
  exists res,
    fst (query animals_rag lions_question []) = Returned res
    /\ (List.length (sources res) <= 5)%nat.
Proof.
  eexists. split; [reflexivity|].
  apply (query_result_bounds animals_rag lions_question [] _ _ eq_refl).
Defined.

(** X9: when the block of the best hit alone is longer than 4000
    characters the loop of [build_context] breaks at once: [query] sends an
    empty context to the generation service, and when that call returns an
    answer [query] returns it with an empty context, while it still lists
    every hit as a source (when the call raises, so does [query]). *)
Theorem query_oversize_first_hit :
  forall self q t h hits t1,
    hybrid_search self q 5 t = (Returned (h :: hits), t1) ->
    len (source_part 1 h) > 4000 ->
    build_context (h :: hits) 4000 = ""%string
    /\ snd (query self q t)
       = t1 ++ [Call_build_context (h :: hits) 4000;
                Call_generate_answer_ollama q "";
                Call_requests_post (generate_url self) (payload_of self q "")
                  120]
    /\ fst (query self q t)
       = match fst (generate_answer_ollama self q ""
                      (t1 ++ [Call_build_context (h :: hits) 4000])) with
         | Returned a =>
             Returned {| answer := a;
                         sources := map source_of (h :: hits);
                         result_context := Some ""%string |}
         | Raised e => Raised e
         end.
Proof.
  intros self q t h hits t1 Hrun Hbig.
  assert (Hctx : build_context (h :: hits) 4000 = ""%string).
  { unfold build_context. cbn [context_parts].
    destruct (0 + len (source_part 1 h) >? 4000) eqn:E; [reflexivity|].
    rewrite Z.gtb_ltb in E. apply Z.ltb_ge in E. lia. }
  split; [exact Hctx|].
  rewrite (RunFacts.query_run _ _ _ _ _ Hrun). cbv zeta.
  rewrite Hctx.
  pose proof (RunFacts.generate_answer_ollama_run self q ""
                (t1 ++ [Call_build_context (h :: hits) 4000])) as Hgen.
  destruct (generate_answer_ollama self q ""
              (t1 ++ [Call_build_context (h :: hits) 4000])) as [[a|e] t2];
    injection Hgen as _ ->; cbn [fst snd]; rewrite <- app_assoc;
    split; reflexivity.
Qed.

(** An entry of 4000 characters of content. *)
Lemma query_oversize_first_hit_witness :
  exists res,
    fst (query verbose_rag "How big are whales?" []) = Returned res
    /\ answer res = "No response generated"%string
    /\ result_context res = Some ""%string
    /\ List.length (sources res) = 1%nat.
Proof.
  destruct (query_oversize_first_hit verbose_rag "How big are whales?" []
              _ _ _ eq_refl)
    as (_ & _ & Hq).
  - vm_compute. reflexivity.
  - rewrite Hq. eexists. split; [reflexivity|]. repeat split.
Defined.

(** X10: when the service answers with a status outside 400..599 and a
    body that decodes, the answer is the member ['response'] of the body,
    and the text ["No response generated"] when the body has no such
    member. *)
Theorem generate_answer_response_member :
  forall self q ctx t response members,
    requests_post self (generate_url self) (payload_of self q ctx) 120
    = PostReturned response ->
    ((400 <=? status_code response) && (status_code response <? 600))%bool
    = false ->
    json_body response = inr (JsonObject members) ->
    NoDup (map fst members) ->
    (forall v, In ("response"%string, v) members ->
               fst (generate_answer_ollama self q ctx t) = Returned v)
    /\ (~ In "response"%string (map fst members) ->
        fst (generate_answer_ollama self q ctx t)
        = Returned "No response generated"%string).
Proof.
  intros self q ctx t response members Hpost Hstatus Hbody Hnd.
  rewrite RunFacts.generate_answer_ollama_run, Hpost, Hstatus, Hbody. cbn [fst].
  clear Hpost Hstatus Hbody.
  split.
  - intros v Hin. f_equal.
    induction members as [|[k0 v0] members IH]; [destruct Hin|].
    simpl. inversion Hnd as [|? ? Hnot Hnd']; subst.
    destruct Hin as [[= -> ->]|Hin].
    + now rewrite String.eqb_refl.
    + destruct (String.eqb k0 "response") eqn:E.
      * apply String.eqb_eq in E. subst k0. exfalso. apply Hnot.
        apply in_map_iff. exists ("response"%string, v). auto.
      * now apply IH.
  - intros Hn. f_equal.
    induction members as [|[k0 v0] members IH]; [reflexivity|].
    simpl in *. inversion Hnd as [|? ? Hnot Hnd']; subst.
    destruct (String.eqb k0 "response") eqn:E.
    + apply String.eqb_eq in E. tauto.
    + apply IH; [assumption|tauto].
Qed.

(** A body without the member. *)
Lemma generate_answer_response_member_witness :
  fst (generate_answer_ollama verbose_rag "How big are whales?" "" [])
  = Returned "No response generated"%string.
Proof.
  apply (proj2 (generate_answer_response_member verbose_rag
                  "How big are whales?" "" [] _ _ eq_refl eq_refl eq_refl
                  ltac:(repeat constructor; simpl; intuition discriminate))).
  simpl. intuition discriminate.
Defined.

(** ** The relational expander: what it finds *)

Module TraversalMore.

Lemma entries_with_id_none g entry_id :
  (forall node, In node (nodes g) -> is_label L_Entry node = true ->
                node_id node <> entry_id) ->
  entries_with_id g entry_id = [].
Proof.
  intros Hnone. unfold entries_with_id.
  destruct (flat_map _ (numbered (nodes g))) as [|seed rest] eqn:E; [reflexivity|].
  assert (Hin : In seed (entries_with_id g entry_id))
    by (unfold entries_with_id; rewrite E; now left).
  destruct (TraversalFacts.entries_with_id_spec _ _ _ Hin)
    as (node & Hnth & Hl & Hi).
  exfalso. apply (Hnone node); auto. eapply nth_error_In, Hnth.
Qed.

(** One hop along a traversed relationship is a listed path. *)
Lemma paths_from_first_hop g hops r :
  In r (relationships g) -> traversed (rel_type r) = true ->
  In (end_node r, 1%nat) (paths_from g (S hops) (start_node r) []).
Proof.
  intros Hr Ht. simpl. apply in_flat_map.
  destruct (In_nth_error _ _ Hr) as [i Hi].
  exists (i, r). split; [now apply TraversalFacts.nth_error_numbered|].
  rewrite Ht, Nat.eqb_refl. simpl. now left.
Qed.

End TraversalMore.

(** X11: for an identifier that no [Entry] node carries the traversal has
    no start and [get_related_entries] returns no row, at every depth from
    0 on. *)
Theorem get_related_entries_unknown_seed :
  forall self entry_id depth t,
    0 <= depth ->
    (forall node, In node (nodes (graph (driver self))) ->
                  is_label L_Entry node = true -> node_id node <> entry_id) ->
    get_related_entries self entry_id depth t
    = (Returned [], t ++ [Call_get_related_entries entry_id depth]).
Proof.
  intros self entry_id depth t Hd Hnone.
  rewrite RunFacts.get_related_entries_run by assumption.
  unfold related_rows, related_matches.
  rewrite (TraversalMore.entries_with_id_none _ _ Hnone). reflexivity.
Qed.

(** An identifier that is not in the example graph. *)
Lemma get_related_entries_unknown_seed_witness :
  get_related_entries animals_rag "Animals:Entry:Zebra" 2 []
  = (Returned [], [Call_get_related_entries "Animals:Entry:Zebra" 2]).
Proof.
  apply (get_related_entries_unknown_seed animals_rag "Animals:Entry:Zebra" 2 []).
  - lia.
  - intros node Hin Hl. simpl in Hin.
    destruct Hin as [<-|[<-|[<-|[<-|[]]]]]; discriminate.
Defined.

(** X12: the traversal misses no direct neighbour: an [Entry] that a
    traversed relationship reaches from the seed, and that a knowledge base
    contains, is among the matches with distance 1 at every depth from 1
    on; and when there are at most 5 distinct matches, [LIMIT 5] cuts
    nothing, so it is among the rows returned. *)
Theorem get_related_entries_direct_neighbours :
  forall g entry_id depth seed seed_node r related_node kb,
    (1 <= depth)%nat ->
    nth_error (nodes g) seed = Some seed_node ->
    is_label L_Entry seed_node = true ->
    node_id seed_node = entry_id ->
    In r (relationships g) ->
    traversed (rel_type r) = true ->
    start_node r = seed ->
    nth_error (nodes g) (end_node r) = Some related_node ->
    is_label L_Entry related_node = true ->
    In kb (containing_kbs g (end_node r)) ->
    let row := {| rel_entry := entry_columns related_node kb; distance := 1 |} in
    In row (related_matches g entry_id depth)
    /\ ((List.length (nodup RelatedRow_eq_dec (related_matches g entry_id depth))
         <= 5)%nat ->
        In row (related_rows g entry_id depth)).
Proof.
  intros g entry_id depth seed seed_node r related_node kb
    Hd Hseed Hls His Hr Ht Hstart Hrel Hlr Hkb row.
  assert (Hm : In row (related_matches g entry_id depth)).
  { unfold related_matches. apply in_flat_map. exists seed.
    split; [now apply (TraversalFacts.entries_with_id_complete _ _ _ seed_node)|].
    apply in_flat_map. exists (end_node r, 1%nat). split.
    - destruct depth as [|hops]; [lia|]. subst seed.
      now apply TraversalMore.paths_from_first_hop.
    - cbn [fst snd]. rewrite Hrel, Hlr. apply in_map_iff. exists kb. auto. }
  split; [exact Hm|].
  intros Hfew. unfold related_rows.
  rewrite firstn_all2.
  - eapply Permutation_in; [apply PyListFacts.stable_sort_perm|].
    now apply nodup_In.
  - now rewrite <- (Permutation_length (PyListFacts.stable_sort_perm nearer _)).
Qed.

(** Hyena, next to Lion in the example. *)
Lemma get_related_entries_direct_neighbours_witness :
  In {| rel_entry :=
          mkEntry "Animals:Entry:Hyena" "Hyena" "Mammal"
            "Hyenas hunt in packs." "Animals";
        distance := 1 |}
    (related_rows animals_graph "Animals:Entry:Lion" 1).
Proof.
  refine (proj2 (get_related_entries_direct_neighbours animals_graph
                   "Animals:Entry:Lion" 1 1
                   (mkNode L_Entry "Animals:Entry:Lion" "Lion" "Mammal"
                      "Lions live in prides." "")
                   (mkRelationship 1 RELATED_TO 2)
                   (mkNode L_Entry "Animals:Entry:Hyena" "Hyena" "Mammal"
                      "Hyenas hunt in packs." "")
                   (mkNode L_KnowledgeBase "" "" "" "" "Animals")
                   _ eq_refl eq_refl eq_refl _ eq_refl eq_refl eq_refl eq_refl _)
            _).
  - lia.
  - simpl. auto.
  - simpl. auto.
  - vm_compute. lia.
Defined.

(** ** [extract_concepts] *)

Module ConceptFacts.




Lemma lower_char_idempotent (c : ascii) :
  lower_char (lower_char c) = lower_char c.
Proof.
  destruct c as [[] [] [] [] [] [] [] []]; reflexivity.
Qed.

Lemma lower_idempotent (text : string) : lower (lower text) = lower text.
Proof.
  induction text as [|c text IH]; simpl; [reflexivity|].
  now rewrite lower_char_idempotent, IH.
Qed.

Lemma NoDup_keywords : NoDup keywords.
Proof.
  unfold keywords.
  repeat (constructor; [simpl; intuition discriminate|]). constructor.
Qed.


End ConceptFacts.




